(** * A shallow embedding of the mdoc reader of benwaffle/doc

    The Go sources model a small mdoc/man reader: a tokenizer
    ([nextToken]), a macro interpreter ([parser.parseLine]), a
    document builder ([parser.parseMdoc]) and a renderer
    ([list.RenderTable] among others).  Go strings are byte strings:
    they are modelled as [string] (lists of 8-bit [ascii]); [int] is [Z]
    or [nat] (lengths).  A Go panic is an [Err] outcome. *)

From Stdlib Require Import Ascii String List Bool Arith ZArith Lia DecimalString.
Import ListNotations.

Open Scope string_scope.
Open Scope list_scope.

(** ** Outcomes of Go code *)

(** The run-time failures of the code: index and slice bounds checks,
    a nil pointer dereference, or an explicit [panic(...)]. *)
Inductive goPanic :=
| IndexOutOfRange
| SliceOutOfRange
| NilDereference
| PanicValue (msg : string).

(** [NoFuel] is the outcome of a bounded loop that ran out of its
    iteration budget; it is not a behaviour of the Go code. *)
Inductive result (A : Type) :=
| Ok (a : A)
| Err (p : goPanic)
| NoFuel.
Arguments Ok {A} a.
Arguments Err {A} p.
Arguments NoFuel {A}.

Definition bind {A B} (m : result A) (k : A -> result B) : result B :=
  match m with
  | Ok a => k a
  | Err p => Err p
  | NoFuel => NoFuel
  end.

Notation "x <- m ;; k" := (bind m (fun x => k))
  (at level 61, m at next level, right associativity).
Notation "' p <- m ;; k" := (bind m (fun x => match x with p => k end))
  (at level 61, p pattern, m at next level, right associativity).

(** ** Go string primitives *)

Definition chr (n : nat) : string := String (ascii_of_nat n) EmptyString.

(** [s[i]] *)
Definition goIndex (s : string) (i : nat) : result ascii :=
  match get i s with
  | Some c => Ok c
  | None => Err IndexOutOfRange
  end.

(** [s[a:]] *)
Definition sliceFrom (s : string) (a : nat) : result string :=
  if (a <=? String.length s)%nat then Ok (substring a (String.length s - a) s)
  else Err SliceOutOfRange.

(** [s[:b]] *)
Definition sliceTo (s : string) (b : nat) : result string :=
  if (b <=? String.length s)%nat then Ok (substring 0 b s) else Err SliceOutOfRange.

(** [strings.HasPrefix(s, p)] *)
Definition hasPrefix (s p : string) : bool := prefix p s.

(** ** UTF-8 decoding of [for i, c := range input]

    Go ranges over the runes of a string: at byte offset [i] it decodes
    one rune as [utf8.DecodeRuneInString] does, and an invalid or
    truncated sequence yields [utf8.RuneError] (U+FFFD) of width 1.  A
    decoded rune is kept as its byte offset and its UTF-8 encoding (the
    bytes [string(c)] appends). *)

Definition runeErrorEnc : string :=
  String (ascii_of_nat 239) (String (ascii_of_nat 191) (String (ascii_of_nat 189) EmptyString)).

Definition byteIn (c : ascii) (lo hi : nat) : bool :=
  ((lo <=? nat_of_ascii c) && (nat_of_ascii c <=? hi))%nat.

(** The first-byte table of package utf8: sequence size and accepted
    range of the second byte. *)
Inductive leadKind :=
| Lead2 (lo hi : nat)
| Lead3 (lo hi : nat)
| Lead4 (lo hi : nat)
| LeadInvalid.

Definition leadOf (c : ascii) : leadKind :=
  let b := nat_of_ascii c in
  (if b <? 194 then LeadInvalid
  else if b <=? 223 then Lead2 128 191
  else if b =? 224 then Lead3 160 191
  else if b <=? 236 then Lead3 128 191
  else if b =? 237 then Lead3 128 159
  else if b <=? 239 then Lead3 128 191
  else if b =? 240 then Lead4 144 191
  else if b <=? 243 then Lead4 128 191
  else if b =? 244 then Lead4 128 143
  else LeadInvalid)%nat.

Fixpoint decode (i : nat) (s : string) : list (nat * string) :=
  match s with
  | EmptyString => []
  | String c r1 =>
      if (nat_of_ascii c <? 128)%nat then (i, String c EmptyString) :: decode (S i) r1
      else
        let bad := (i, runeErrorEnc) :: decode (S i) r1 in
        match leadOf c with
        | LeadInvalid => bad
        | Lead2 lo hi =>
            match r1 with
            | String c2 r2 =>
                if byteIn c2 lo hi
                then (i, String c (String c2 EmptyString)) :: decode (2 + i) r2
                else bad
            | EmptyString => bad
            end
        | Lead3 lo hi =>
            match r1 with
            | String c2 (String c3 r3) =>
                if byteIn c2 lo hi && byteIn c3 128 191
                then (i, String c (String c2 (String c3 EmptyString))) :: decode (3 + i) r3
                else bad
            | _ => bad
            end
        | Lead4 lo hi =>
            match r1 with
            | String c2 (String c3 (String c4 r4)) =>
                if byteIn c2 lo hi && byteIn c3 128 191 && byteIn c4 128 191
                then (i, String c (String c2 (String c3 (String c4 EmptyString))))
                       :: decode (4 + i) r4
                else bad
            | _ => bad
            end
        end
  end.

(** ** The tokenizer: [nextToken] (doc.go, second revision)

    One pass over the runes of [input]; [i] is the byte offset of rune
    [c].  A backslash followed by byte [f] is a font escape: inside
    quotes the backslash is kept; at offset 0 the three bytes
    [input[:3]] are the token; elsewhere the token ends before it.  Any
    other backslash is dropped; a double quote toggles [inQuote]; a
    space outside quotes ends the token, the remainder being
    [input[i+1:]]; every other rune is appended. *)

Definition dq : string := chr 34.

Fixpoint nextTokenLoop (input : string) (inQuote : bool) (token : string)
    (runes : list (nat * string)) : result (string * string) :=
  match runes with
  | [] => Ok (token, "")
  | (i, c) :: runes' =>
      if c =? "\" then
        b <- goIndex input (S i) ;;
        if (b =? "f")%char then
          if inQuote then nextTokenLoop input inQuote (token ++ "\") runes'
          else if (i =? 0)%nat then
            tok <- sliceTo input 3 ;;
            rest <- sliceFrom input 3 ;;
            Ok (tok, rest)
          else
            rest <- sliceFrom input i ;;
            Ok (token, rest)
        else nextTokenLoop input inQuote token runes'
      else if (c =? dq) && negb inQuote then nextTokenLoop input true token runes'
      else if (c =? dq) && inQuote then nextTokenLoop input false token runes'
      else if (c =? " ") && negb inQuote then
        rest <- sliceFrom input (S i) ;;
        Ok (token, rest)
      else nextTokenLoop input inQuote (token ++ c) runes'
  end.

Definition nextToken (input : string) : result (string * string) :=
  if (String.length input =? 0)%nat then Ok ("", "")
  else nextTokenLoop input false "" (decode 0 input).

(** The table of [TestNextToken] in doc_test.go. *)
Example nextToken_test_word : nextToken "word" = Ok ("word", ""). Proof. reflexivity. Qed.
Example nextToken_test_abc : nextToken "a b c" = Ok ("a", "b c"). Proof. reflexivity. Qed.
Example nextToken_test_fl : nextToken ".Fl t Ns Ar man ," = Ok (".Fl", "t Ns Ar man ,").
Proof. reflexivity. Qed.
Example nextToken_test_font : nextToken "normal\fBbold" = Ok ("normal", "\fBbold").
Proof. reflexivity. Qed.
Example nextToken_test_quoted :
  nextToken (dq ++ "quoted words" ++ dq ++ " are handled") = Ok ("quoted words", "are handled").
Proof. reflexivity. Qed.
Example nextToken_test_hel : nextToken "hel\fBlo\fR" = Ok ("hel", "\fBlo\fR").
Proof. reflexivity. Qed.
Example nextToken_test_start : nextToken "\fBhello" = Ok ("\fB", "hello").
Proof. reflexivity. Qed.
Example nextToken_test_dash : nextToken "\-\- ok" = Ok ("--", "ok").
Proof. reflexivity. Qed.
Example nextToken_test_quoted_font :
  nextToken (dq ++ "\-b\fIn\fP or \-\-buffers=\fIn\fP" ++ dq) = Ok ("-b\fIn\fP or --buffers=\fIn\fP", "").
Proof. reflexivity. Qed.

#[local] Set Warnings "-register-all".

(** ** The data model (doc.go)

    [textTag], [decorationTag] and [listType] are the Go enumerations.
    render.go also uses [tagUnderline], [tagTableCellSeparator],
    [dashList], [columnList] and a [Columns] field of [list], which the
    revision of doc.go in the sources does not declare; they are added
    here so that the renderer can be embedded. *)

Inductive textTag :=
| tagPlain | tagNameRef | tagArg | tagEnvVar | tagVariable | tagPath
| tagSubsectionHeader | tagLiteral | tagSymbolic | tagStandard | tagBold
| tagItalic | tagSingleQuote | tagDoubleQuote | tagUnderline
| tagTableCellSeparator.

Inductive decorationTag :=
| decorationNone | decorationOptional | decorationParens
| decorationSingleQuote | decorationDoubleQuote | decorationQuotedLiteral.

Inductive listType :=
| bulletList | itemList | enumList | tagList | diagList | hangList
| ohangList | insetList | dashList | columnList.

(** The implementations of the Go interface [Span]: [textSpan],
    [flagSpan], [manRef], [decoratedSpan] and the list pointer [*list]
    that the builder appends when a list ends. *)
Inductive Span :=
| textSpan (Typ : textTag) (Text : string) (NoSpace : bool)
| flagSpan (Flag : string) (Dash : bool) (NoSpace : bool)
| manRef (Name : string) (Section : option Z)
| decoratedSpan (Typ : decorationTag) (Contents : list Span)
| listSpan (l : mdocList)
with mdocList :=
| mkList (Typ : listType) (Items : list listItem) (Compact : bool)
    (Width : Z) (Indent : Z) (Columns : list string)
with listItem :=
| mkListItem (Tag : list Span) (Contents : list Span).

Definition listTyp (l : mdocList) : listType := let '(mkList t _ _ _ _ _) := l in t.
Definition listItems (l : mdocList) : list listItem := let '(mkList _ it _ _ _ _) := l in it.
Definition listCompact (l : mdocList) : bool := let '(mkList _ _ c _ _ _) := l in c.
Definition listWidth (l : mdocList) : Z := let '(mkList _ _ _ w _ _) := l in w.
Definition listIndent (l : mdocList) : Z := let '(mkList _ _ _ _ i _) := l in i.
Definition listColumns (l : mdocList) : list string := let '(mkList _ _ _ _ _ c) := l in c.
Definition itemTag (it : listItem) : list Span := let '(mkListItem t _) := it in t.
Definition itemContents (it : listItem) : list Span := let '(mkListItem _ c) := it in c.

(** [list{}]: the zero value. *)
Definition emptyList : mdocList := mkList bulletList [] false 0 0 [].

Record section := mkSection { secName : string; secContents : list Span }.

Record manPage := mkManPage {
  pageName : string;
  pageSection : Z;
  pageDate : string;
  pageSections : list section;
  pageExtra : string }.

Definition emptyPage : manPage := mkManPage "" 0 "" [] "".

Inductive font := fontPlain | fontBold | fontItalic.

Record parser := mkParser { lastFont : font; currentFont : font }.

(** ** The macro interpreter: [parser.parseLine]

    The loop variables of [parseLine]: the unread part of the line, the
    spans emitted so far, [lastMacro] and [repeatMacro]. *)
Record lineState := mkLineState {
  line : string;
  res : list Span;
  lastMacro : string;
  repeatMacro : bool }.

Definition startLine (l : string) : lineState := mkLineState l [] "" false.

(** One iteration of the [for] loop either continues ([continue], or the
    end of a [switch] case) or leaves it ([break tokenizer]). *)
Inductive stepResult :=
| Continue (p : parser) (st : lineState)
| Break (p : parser) (spans : list Span).

Definition setLine (st : lineState) (l : string) : lineState :=
  mkLineState l (res st) (lastMacro st) (repeatMacro st).

(** A macro that takes the next token as its single argument. *)
Definition argMacro (p : parser) (st : lineState) (rest : string)
    (name : string) (mk : string -> Span) : result stepResult :=
  '(arg, rest') <- nextToken rest ;;
  Ok (Continue p (mkLineState rest' (res st ++ [mk arg]) name (repeatMacro st))).

(** The alternating macros [BR], [RB], [RI] and [IR]. *)
Definition altMacro (p : parser) (st : lineState) (rest : string)
    (name other : string) (tag : textTag) : result stepResult :=
  '(arg, rest') <- nextToken rest ;;
  if arg =? "" then Ok (Continue p (mkLineState rest' (res st) name (repeatMacro st)))
  else Ok (Continue p (mkLineState (other ++ " " ++ rest') (res st ++ [textSpan tag arg false])
                         name (repeatMacro st))).

(** [Ns]: [res[len(res)-1]] gets [NoSpace = true]. *)
Definition setNoSpace (s : Span) : result Span :=
  match s with
  | textSpan t x _ => Ok (textSpan t x true)
  | flagSpan f d _ => Ok (flagSpan f d true)
  | _ => Err (PanicValue "Don't know how to handle Ns macro")
  end.

Definition nsMacro (p : parser) (st : lineState) (rest : string) : result stepResult :=
  match rev (res st) with
  | [] => Err IndexOutOfRange
  | last :: before =>
      last' <- setNoSpace last ;;
      Ok (Continue p (mkLineState rest (rev before ++ [last']) (lastMacro st) (repeatMacro st)))
  end.

(** [Ql], [Pq], [Sq], [Dq], [Op]: the rest of the line is parsed
    recursively and the loop ends. *)
Definition decoMacro (parseLineRec : parser -> string -> result (parser * list Span))
    (p : parser) (st : lineState) (rest : string) (d : decorationTag) : result stepResult :=
  '(p', children) <- parseLineRec p rest ;;
  Ok (Break p' (res st ++ [decoratedSpan d children])).

Definition fontTag (f : font) : textTag :=
  match f with
  | fontPlain => tagPlain
  | fontBold => tagBold
  | fontItalic => tagItalic
  end.

Definition isSeparator (tok : string) : bool := (tok =? ",") || (tok =? "|").

(** The tokens with a [case] in the [switch] of [parseLine], apart from
    the separators and the empty token. *)
Definition macroCases : list string :=
  ["Fl"; "Cm"; "Ar"; "Ev"; "Va"; "Dv"; "Pa"; "Sy"; "Li"; "St"; "B"; "I";
   "BR"; "RB"; "RI"; "IR"; "Ns"; "Ql"; "Pq"; "Sq"; "Dq"; "Op";
   "\fB"; "\fI"; "\fR"; "\fP"; "\-"; "\,"; "\/"].

Definition lineStep (parseLineRec : parser -> string -> result (parser * list Span))
    (p : parser) (st : lineState) : result stepResult :=
  '(token, rest) <- nextToken (line st) ;;
  if (token =? "") && negb (String.length rest =? 0)%nat then
    (* eat spaces *)
    Ok (Continue p (setLine st rest))
  else if token =? "Fl" then argMacro p st rest "Fl" (fun a => flagSpan a true false)
  else if token =? "Cm" then argMacro p st rest "Cm" (fun a => flagSpan a false false)
  else if token =? "Ar" then
    argMacro p st rest "Ar" (fun a => textSpan tagArg (if a =? "" then "file ..." else a) false)
  else if token =? "Ev" then argMacro p st rest "Ev" (fun a => textSpan tagEnvVar a false)
  else if (token =? "Va") || (token =? "Dv") then
    argMacro p st rest "Va" (fun a => textSpan tagVariable a false)
  else if token =? "Pa" then argMacro p st rest "Pa" (fun a => textSpan tagPath a false)
  else if token =? "Sy" then argMacro p st rest "Sy" (fun a => textSpan tagSymbolic a false)
  else if token =? "Li" then argMacro p st rest "Li" (fun a => textSpan tagLiteral a false)
  else if token =? "St" then argMacro p st rest "St" (fun a => textSpan tagStandard a false)
  else if token =? "B" then argMacro p st rest "B" (fun a => textSpan tagBold a false)
  else if token =? "I" then argMacro p st rest "I" (fun a => textSpan tagItalic a false)
  else if token =? "BR" then altMacro p st rest "BR" "RB" tagBold
  else if token =? "RB" then altMacro p st rest "RB" "BR" tagPlain
  else if token =? "RI" then altMacro p st rest "RI" "IR" tagPlain
  else if token =? "IR" then altMacro p st rest "IR" "RI" tagItalic
  else if token =? "Ns" then nsMacro p st rest
  else if token =? "Ql" then decoMacro parseLineRec p st rest decorationQuotedLiteral
  else if token =? "Pq" then decoMacro parseLineRec p st rest decorationParens
  else if token =? "Sq" then decoMacro parseLineRec p st rest decorationSingleQuote
  else if token =? "Dq" then decoMacro parseLineRec p st rest decorationDoubleQuote
  else if token =? "Op" then decoMacro parseLineRec p st rest decorationOptional
  (* escape sequences *)
  else if token =? "\fB" then
    Ok (Continue (mkParser (currentFont p) fontBold) (setLine st rest))
  else if token =? "\fI" then
    Ok (Continue (mkParser (currentFont p) fontItalic) (setLine st rest))
  else if token =? "\fR" then
    Ok (Continue (mkParser (currentFont p) fontPlain) (setLine st rest))
  else if token =? "\fP" then
    Ok (Continue (mkParser (lastFont p) (lastFont p)) (setLine st rest))
  else if (token =? "\-") || (token =? "\,") || (token =? "\/") then
    Ok (Continue p (mkLineState rest (res st ++ [textSpan tagPlain (substring 1 1 token) true])
                     (lastMacro st) (repeatMacro st)))
  else if isSeparator token then
    Ok (Continue p (mkLineState rest (res st ++ [textSpan tagPlain token false])
                     (lastMacro st) true))
  else if token =? "" then Ok (Break p (res st))
  else if repeatMacro st then
    Ok (Continue p (mkLineState (lastMacro st ++ " " ++ line st) (res st) (lastMacro st) false))
  else
    Ok (Continue p (mkLineState rest (res st ++ [textSpan (fontTag (currentFont p)) token false])
                     (lastMacro st) (repeatMacro st))).

(** The [for] loop, bounded by [fuel] iterations (recursive calls of the
    enclosure macros included). *)
Fixpoint runLoop (fuel : nat) (p : parser) (st : lineState) : result (parser * list Span) :=
  match fuel with
  | O => NoFuel
  | S f =>
      let parseLineRec p' l :=
        if l =? "" then Ok (p', []) else runLoop f p' (startLine l) in
      r <- lineStep parseLineRec p st ;;
      match r with
      | Continue p' st' => runLoop f p' st'
      | Break p' spans => Ok (p', spans)
      end
  end.

Definition lineFuel (l : string) : nat := 32 * String.length l + 32.

Definition parseLine (p : parser) (l : string) : result (parser * list Span) :=
  if l =? "" then Ok (p, []) else runLoop (lineFuel l) p (startLine l).

Definition p0 : parser := mkParser fontPlain fontPlain.

Example parseLine_test_fl :
  parseLine p0 "Fl t Ns Ar man ," =
  Ok (p0, [flagSpan "t" true true; textSpan tagArg "man" false; textSpan tagPlain "," false]).
Proof. reflexivity. Qed.

Example parseLine_test_repeat :
  parseLine p0 "Ar a , b" =
  Ok (p0, [textSpan tagArg "a" false; textSpan tagPlain "," false; textSpan tagArg "b" false]).
Proof. reflexivity. Qed.

Example parseLine_test_op :
  parseLine p0 "Op Fl x Ar y" =
  Ok (p0, [decoratedSpan decorationOptional [flagSpan "x" true false; textSpan tagArg "y" false]]).
Proof. reflexivity. Qed.

(** ** Library functions used by the document builder *)

(** [strings.Split(doc, "\n")] *)
Fixpoint splitLinesAcc (cur : string) (s : string) : list string :=
  match s with
  | EmptyString => [cur]
  | String c s' =>
      if (nat_of_ascii c =? 10)%nat then cur :: splitLinesAcc "" s'
      else splitLinesAcc (cur ++ String c EmptyString) s'
  end.

Definition splitLines (s : string) : list string := splitLinesAcc "" s.

Fixpoint takeWhile (f : ascii -> bool) (s : string) : string :=
  match s with
  | EmptyString => EmptyString
  | String c s' => if f c then String c (takeWhile f s') else EmptyString
  end.

Fixpoint dropWhile (f : ascii -> bool) (s : string) : string :=
  match s with
  | EmptyString => EmptyString
  | String c s' => if f c then dropWhile f s' else s
  end.

Definition isDigit (c : ascii) : bool := byteIn c 48 57.

(** [[A-Za-z_]] *)
Definition isAlphaUnderscore (c : ascii) : bool :=
  byteIn c 65 90 || byteIn c 97 122 || (nat_of_ascii c =? 95)%nat.

(** [\S] of package regexp: not one of [\t \n \f \r] and space. *)
Definition isNotSpace (c : ascii) : bool :=
  negb (existsb (Nat.eqb (nat_of_ascii c)) [9; 10; 12; 13; 32]%nat).

Definition startsWithSpace (s : string) : bool := prefix " " s.

(** A leftmost regexp match: the first suffix where [m] matches. *)
Fixpoint findLeftmost {A} (m : string -> option A) (s : string) : option A :=
  match m s with
  | Some a => Some a
  | None =>
      match s with
      | EmptyString => None
      | String _ s' => findLeftmost m s'
      end
  end.

(** [\.Dt ([A-Za-z_]+) (\d+)] at the start of [s]: both groups are
    greedy and nothing follows them, so each is a maximal run. *)
Definition matchDtAt (s : string) : option (string * string) :=
  if prefix ".Dt " s then
    let r := substring 4 (String.length s - 4) s in
    let name := takeWhile isAlphaUnderscore r in
    let r2 := dropWhile isAlphaUnderscore r in
    match r2 with
    | String sp r3 =>
        let digits := takeWhile isDigit r3 in
        if negb (name =? "") && (nat_of_ascii sp =? 32)%nat && negb (digits =? "")
        then Some (name, digits) else None
    | EmptyString => None
    end
  else None.

(** [\.Xr (\S+)(?: (\d+))?] and [\.Nm (\S+)(?: (\S+))?] at the start of
    [s]: the first group is the maximal run of non-space bytes, the
    optional group matches when a space and a run of [cls] follow. *)
Definition matchTwoAt (macro : string) (cls : ascii -> bool) (s : string)
    : option (string * option string) :=
  if prefix macro s then
    let r := substring (String.length macro) (String.length s - String.length macro) s in
    let name := takeWhile isNotSpace r in
    let r2 := dropWhile isNotSpace r in
    if name =? "" then None
    else
      match r2 with
      | String sp r3 =>
          let arg := takeWhile cls r3 in
          if (nat_of_ascii sp =? 32)%nat && negb (arg =? "")
          then Some (name, Some arg) else Some (name, None)
      | EmptyString => Some (name, None)
      end
  else None.

Definition findDt (l : string) := findLeftmost matchDtAt l.
Definition findXr (l : string) := findLeftmost (matchTwoAt ".Xr " isDigit) l.
Definition findNm (l : string) := findLeftmost (matchTwoAt ".Nm " isNotSpace) l.

Fixpoint digitsValue (acc : Z) (s : string) : option Z :=
  match s with
  | EmptyString => Some acc
  | String c s' =>
      if isDigit c then digitsValue (10 * acc + Z.of_nat (nat_of_ascii c - 48))%Z s'
      else None
  end.

(** [strconv.Atoi]: an optional sign, at least one decimal digit, and a
    value in the range of a 64-bit [int]. *)
Definition atoi (s : string) : option Z :=
  let '(neg, ds) :=
    match s with
    | String c s' =>
        if (nat_of_ascii c =? 45)%nat then (true, s')
        else if (nat_of_ascii c =? 43)%nat then (false, s')
        else (false, s)
    | EmptyString => (false, s)
    end in
  if ds =? "" then None
  else
    match digitsValue 0 ds with
    | None => None
    | Some v =>
        let z := if neg then (- v)%Z else v in
        if ((- 2 ^ 63 <=? z) && (z <? 2 ^ 63))%Z then Some z else None
    end.

Definition atoiOrPanic (s : string) : result Z :=
  match atoi s with
  | Some z => Ok z
  | None => Err (PanicValue "strconv.Atoi")
  end.

(** [strings.Trim] with the double quote as cutset. *)
Fixpoint trimLeftQuotes (s : string) : string :=
  match s with
  | String c s' => if (nat_of_ascii c =? 34)%nat then trimLeftQuotes s' else s
  | EmptyString => EmptyString
  end.

Definition revString (s : string) : string :=
  string_of_list_ascii (rev (list_ascii_of_string s)).

Definition trimQuotes (s : string) : string :=
  revString (trimLeftQuotes (revString (trimLeftQuotes s))).

Fixpoint repeatString (n : nat) (s : string) : string :=
  match n with
  | O => ""
  | S n' => s ++ repeatString n' s
  end.

(** [strings.Repeat("  ", count)] *)
Definition goRepeat2 (count : Z) : result string :=
  if (count <? 0)%Z then Err (PanicValue "strings: negative Repeat count")
  else if (2 ^ 63 - 1 <? 2 * count)%Z then Err (PanicValue "strings: Repeat output length overflow")
  else Ok (repeatString (Z.to_nat count) "  ").

(** [slices.Index] *)
Fixpoint sliceIndex (xs : list string) (x : string) : option nat :=
  match xs with
  | [] => None
  | y :: ys => if y =? x then Some 0 else option_map S (sliceIndex ys x)
  end.

Definition sliceContains (xs : list string) (x : string) : bool := existsb (String.eqb x) xs.

Definition listIndex {A} (xs : list A) (i : nat) : result A :=
  match nth_error xs i with
  | Some a => Ok a
  | None => Err IndexOutOfRange
  end.

(** Multi-byte glyphs of the builder, by their UTF-8 bytes. *)
Definition enDash : string := chr 226 ++ chr 128 ++ chr 147.
Definition bulletGlyph : string := chr 226 ++ chr 128 ++ chr 162.
Definition emDashGlyph : string := chr 226 ++ chr 128 ++ chr 148.

Example splitLines_test : splitLines ("a" ++ chr 10 ++ "b") = ["a"; "b"]. Proof. reflexivity. Qed.
Example findDt_test : findDt "x .Dt LS 1" = Some ("LS", "1"). Proof. reflexivity. Qed.
Example findXr_test : findXr ".Xr ls 1" = Some ("ls", Some "1"). Proof. reflexivity. Qed.
Example findXr_test2 : findXr ".Xr ls" = Some ("ls", None). Proof. reflexivity. Qed.
Example findNm_test : findNm ".Nm ls foo bar" = Some ("ls", Some "foo"). Proof. reflexivity. Qed.
Example atoi_test : atoi "-12" = Some (-12)%Z. Proof. reflexivity. Qed.
Example trimQuotes_test : trimQuotes (dq ++ "NAME" ++ dq) = "NAME". Proof. reflexivity. Qed.

(** ** The document builder: [parser.parseMdoc]

    The builder's variables: the page, [currentSection] (a nil pointer
    is [None]), the list stack [lists] of [stack[*list]] (its top, the
    last element of the Go slice, is the head here), [savedName] and the
    parser with its font register. *)
Record builder := mkBuilder {
  bPage : manPage;
  bSection : option section;
  bLists : list mdocList;
  bSavedName : string;
  bParser : parser }.

Definition builder0 : builder := mkBuilder emptyPage None [] "" p0.

Definition setPage (b : builder) (pg : manPage) : builder :=
  mkBuilder pg (bSection b) (bLists b) (bSavedName b) (bParser b).
Definition setSection (b : builder) (s : option section) : builder :=
  mkBuilder (bPage b) s (bLists b) (bSavedName b) (bParser b).
Definition setLists (b : builder) (ls : list mdocList) : builder :=
  mkBuilder (bPage b) (bSection b) ls (bSavedName b) (bParser b).
Definition setSavedName (b : builder) (n : string) : builder :=
  mkBuilder (bPage b) (bSection b) (bLists b) n (bParser b).
Definition setParser (b : builder) (p : parser) : builder :=
  mkBuilder (bPage b) (bSection b) (bLists b) (bSavedName b) p.

Definition withItems (l : mdocList) (items : list listItem) : mdocList :=
  mkList (listTyp l) items (listCompact l) (listWidth l) (listIndent l) (listColumns l).

Definition appendSections (pg : manPage) (s : section) : manPage :=
  mkManPage (pageName pg) (pageSection pg) (pageDate pg) (pageSections pg ++ [s]) (pageExtra pg).

(** [addSpans]: to the last item of the list on top of the stack
    ([Items[len(Items)-1]] is out of range when it has no item), else to
    the current section, else a panic. *)
Definition addSpans (b : builder) (spans : list Span) : result builder :=
  match bLists b with
  | top :: below =>
      match rev (listItems top) with
      | [] => Err IndexOutOfRange
      | it :: before =>
          let it' := mkListItem (itemTag it) (itemContents it ++ spans) in
          Ok (setLists b (withItems top (rev before ++ [it']) :: below))
      end
  | [] =>
      match bSection b with
      | Some s => Ok (setSection b (Some (mkSection (secName s) (secContents s ++ spans))))
      | None => Err (PanicValue "can't add spans, no current section")
      end
  end.

(** The [case]s of the [switch] of [parseMdoc], in their order. *)
Inductive lineKind :=
| KComment
| KDate
| KDt (name digits : string)
| KTH
| KSh
| KNmFull (name : string) (arg : option string)
| KNmBare
| KNd
| KIn
| KXr (name : string) (sec : option string)
| KSs
| KDl
| KIP
| KTP
| KFt
| KBl
| KIt
| KEl
| KOs
| KPp
| KBr
| KIgnoredDirective
| KEmpty
| KDotMacro
| KText.

Definition commentStart1 : string := "." ++ "\" ++ dq.
Definition commentStart2 : string := "'" ++ "\" ++ dq.

Definition classify (l : string) : lineKind :=
  if hasPrefix l commentStart1 || hasPrefix l commentStart2 then KComment
  else if hasPrefix l ".Dd" then KDate
  else match findDt l with Some (n, d) => KDt n d | None =>
  if hasPrefix l ".TH" then KTH
  else if hasPrefix l ".Sh" || hasPrefix l ".SH" then KSh
  else match findNm l with Some (n, a) => KNmFull n a | None =>
  if l =? ".Nm" then KNmBare
  else if hasPrefix l ".Nd" then KNd
  else if hasPrefix l ".In" then KIn
  else match findXr l with Some (n, sec) => KXr n sec | None =>
  if hasPrefix l ".Ss" || hasPrefix l ".SS" then KSs
  else if hasPrefix l ".Dl" then KDl
  else if hasPrefix l ".IP" then KIP
  else if hasPrefix l ".TP" then KTP
  else if hasPrefix l ".ft" then KFt
  else if hasPrefix l ".Bl" then KBl
  else if hasPrefix l ".It" then KIt
  else if hasPrefix l ".El" then KEl
  else if hasPrefix l ".Os" then KOs
  else if (l =? ".Pp") || (l =? ".PP") then KPp
  else if l =? ".br" then KBr
  else if (l =? ".na") || (l =? ".nh") || hasPrefix l ".nr" then KIgnoredDirective
  else if (l =? ".") || (l =? "") then KEmpty
  else if hasPrefix l "." then KDotMacro
  else KText
  end end end.

Section Builder.

(** [shlex.Split] of github.com/google/shlex, a library outside the
    repository: any function, [None] being its error. *)
Variable shlexSplit : string -> option (list string).

Definition shlexOrPanic (s : string) : result (list string) :=
  match shlexSplit s with
  | Some args => Ok args
  | None => Err (PanicValue "shlex.Split")
  end.

(** The list kind and width chosen by the options of [.Bl]. *)
Definition blKind (args : list string) : result (listType * Z) :=
  if sliceContains args "-bullet" then Ok (bulletList, 0%Z)
  else if sliceContains args "-enum" then Ok (enumList, 0%Z)
  else if sliceContains args "-tag" then
    match sliceIndex args "-width" with
    | None => Err (PanicValue "missing -width argument to .Bl tag list")
    | Some widthIdx =>
        w <- listIndex args (S widthIdx) ;;
        Ok (tagList, Z.of_nat (String.length w))
    end
  else if sliceContains args "-diag" then Ok (diagList, 0%Z)
  else if sliceContains args "-hang" then Ok (hangList, 0%Z)
  else if sliceContains args "-ohang" then Ok (ohangList, 0%Z)
  else if sliceContains args "-inset" then Ok (insetList, 0%Z)
  else Ok (itemList, 0%Z).

(** The list a [.Bl] line with option tokens [args] pushes. *)
Definition blList (args : list string) : result mdocList :=
  '(typ, width) <- blKind args ;;
  indent <-
    match sliceIndex args "-offset" with
    | None => Ok 0%Z
    | Some i => a <- listIndex args (S i) ;; Ok (if a =? "indent" then 6%Z else 0%Z)
    end ;;
  Ok (mkList typ [] (sliceContains args "-compact") width indent []).

(** [p.parseLine(s)] followed by [addSpans] of its spans. *)
Definition parseAndAdd (b : builder) (s : string) : result builder :=
  '(p', spans) <- parseLine (bParser b) s ;;
  addSpans (setParser b p') spans.

Definition ipTag (arg1 : string) : string :=
  if arg1 =? "\(bu" then bulletGlyph
  else if arg1 =? "\(em" then emDashGlyph
  else arg1.

(** One iteration of the loop over the lines of the document. *)
Definition processLine (b : builder) (l : string) : result builder :=
  let pg := bPage b in
  match classify l with
  | KComment => Ok b
  | KDate =>
      d <- sliceFrom l 4 ;;
      Ok (setPage b (mkManPage (pageName pg) (pageSection pg) d (pageSections pg) (pageExtra pg)))
  | KDt name digits =>
      sec <- atoiOrPanic digits ;;
      Ok (setPage b (mkManPage name sec (pageDate pg) (pageSections pg) (pageExtra pg)))
  | KTH =>
      s <- sliceFrom l 4 ;;
      parts <- shlexOrPanic s ;;
      name <- listIndex parts 0 ;;
      secStr <- listIndex parts 1 ;;
      sec <- atoiOrPanic secStr ;;
      date <- listIndex parts 2 ;;
      Ok (setPage b (mkManPage name sec date (pageSections pg)
                       (String.concat " " (skipn 3 parts))))
  | KSh =>
      let b1 := match bSection b with
                | Some s => setPage b (appendSections pg s)
                | None => b
                end in
      name <- sliceFrom l 4 ;;
      Ok (setSection b1 (Some (mkSection (trimQuotes name) [])))
  | KNmFull name arg =>
      let b1 := if bSavedName b =? "" then setSavedName b name else b in
      b2 <- addSpans b1 [textSpan tagNameRef name false] ;;
      match arg with
      | Some a => if a =? "" then Ok b2 else addSpans b2 [textSpan tagPlain a false]
      | None => Ok b2
      end
  | KNmBare =>
      match bSection b with
      | None => Err NilDereference
      | Some s =>
          b1 <- (if secName s =? "SYNOPSIS"
                 then addSpans b [textSpan tagPlain (chr 10) true] else Ok b) ;;
          addSpans b1 [textSpan tagNameRef (bSavedName b) false]
      end
  | KNd =>
      s <- sliceFrom l 4 ;;
      addSpans b [textSpan tagPlain (enDash ++ " " ++ s) false]
  | KIn =>
      s <- sliceFrom l 4 ;;
      addSpans b [textSpan tagPlain ("#include <" ++ s ++ ">") false]
  | KXr name sec =>
      match sec with
      | None => Err SliceOutOfRange
      | Some d =>
          n <- atoiOrPanic d ;;
          addSpans b [manRef name (Some n)]
      end
  | KSs =>
      s <- sliceFrom l 4 ;;
      addSpans b [textSpan tagSubsectionHeader s true]
  | KDl =>
      b1 <- addSpans b [textSpan tagPlain (chr 9) false] ;;
      s <- sliceFrom l 4 ;;
      parseAndAdd b1 s
  | KIP =>
      '(tag, indent) <-
        (if (3 <? String.length l)%nat then
           s <- sliceFrom l 4 ;;
           '(arg1, rest) <- nextToken s ;;
           '(arg2, _) <- nextToken rest ;;
           indent <- (if arg2 =? "" then Ok 0%Z else atoiOrPanic arg2) ;;
           Ok (ipTag arg1, indent)
         else Ok ("", 0%Z)) ;;
      pad <- goRepeat2 indent ;;
      addSpans b [textSpan tagPlain (chr 10 ++ pad ++ tag) false]
  | KTP => addSpans b [textSpan tagPlain (chr 10) false]
  | KFt => Ok b
  | KBl =>
      s <- sliceFrom l 4 ;;
      args <- shlexOrPanic s ;;
      lst <- blList args ;;
      Ok (setLists b (lst :: bLists b))
  | KIt =>
      '(p', tag) <-
        (if (4 <? String.length l)%nat then
           s <- sliceFrom l 4 ;; parseLine (bParser b) s
         else Ok (bParser b, [])) ;;
      let b1 := setParser b p' in
      match bLists b1 with
      | [] => Err IndexOutOfRange
      | top :: below =>
          Ok (setLists b1 (withItems top (listItems top ++ [mkListItem tag []]) :: below))
      end
  | KEl =>
      match bLists b with
      | [] => Err IndexOutOfRange
      | top :: below => addSpans (setLists b below) [listSpan top]
      end
  | KOs => Ok b
  | KPp => addSpans b [textSpan tagPlain (chr 10 ++ chr 10) false]
  | KBr => addSpans b [textSpan tagPlain (chr 10) false]
  | KIgnoredDirective => Ok b
  | KEmpty => Ok b
  | KDotMacro => s <- sliceFrom l 1 ;; parseAndAdd b s
  | KText => parseAndAdd b l
  end.

Fixpoint processLines (b : builder) (ls : list string) : result builder :=
  match ls with
  | [] => Ok b
  | l :: ls' => b' <- processLine b l ;; processLines b' ls'
  end.

(** The end of [parseMdoc]: [page.Sections = append(page.Sections,
    *currentSection)] dereferences the current section. *)
Definition finish (b : builder) : result manPage :=
  match bSection b with
  | None => Err NilDereference
  | Some s => Ok (appendSections (bPage b) s)
  end.

Definition parseMdocFrom (b : builder) (doc : string) : result manPage :=
  b' <- processLines b (splitLines doc) ;; finish b'.

Definition parseMdoc (doc : string) : result manPage := parseMdocFrom builder0 doc.

End Builder.

(** A whitespace splitter standing in for [shlex.Split] in examples. *)
Fixpoint wordsAcc (cur : string) (s : string) : list string :=
  match s with
  | EmptyString => if cur =? "" then [] else [cur]
  | String c s' =>
      if (nat_of_ascii c =? 32)%nat
      then (if cur =? "" then wordsAcc "" s' else cur :: wordsAcc "" s')
      else wordsAcc (cur ++ String c EmptyString) s'
  end.

Definition simpleSplit (s : string) : option (list string) := Some (wordsAcc "" s).

Definition nl : string := chr 10.

Example parseMdoc_test_paragraphs :
  parseMdoc simpleSplit (".Sh DESCRIPTION" ++ nl ++ "First paragraph." ++ nl ++ ".Pp" ++ nl
                         ++ "Second paragraph.") =
  Ok (mkManPage "" 0 "" [mkSection "DESCRIPTION"
        [textSpan tagPlain "First" false; textSpan tagPlain "paragraph." false;
         textSpan tagPlain (nl ++ nl) false;
         textSpan tagPlain "Second" false; textSpan tagPlain "paragraph." false]] "").
Proof. reflexivity. Qed.

Example parseMdoc_test_list :
  parseMdoc simpleSplit (".Sh A" ++ nl ++ ".Bl -tag -width indent" ++ nl ++ ".It Fl x" ++ nl
                         ++ "text" ++ nl ++ ".El") =
  Ok (mkManPage "" 0 "" [mkSection "A"
        [listSpan (mkList tagList [mkListItem [flagSpan "x" true false] [textSpan tagPlain "text" false]]
                     false 6 0 [])]] "").
Proof. reflexivity. Qed.

(** ** The column-list renderer: [list.RenderTable] (render.go)

    The rendering of one span ([Span.Render(width)], styled with
    lipgloss) and the bordered table of the bubbles [table] package are
    library code outside this function: they are parameters. *)
Section Render.

Variable renderSpan : Z -> Span -> string.
Variable tableView : list (string * Z) -> list (list string) -> Z -> string.

(** The columns: [len(col) + 3], the last one taking what remains of
    [width] minus 4. *)
Fixpoint tableColumnsAcc (width : Z) (done : list (string * Z)) (cols : list string)
    : list (string * Z) :=
  match cols with
  | [] => done
  | col :: cols' =>
      let colWidth :=
        match cols' with
        | [] => (width - fold_left Z.add (map snd done) 0 - 4)%Z
        | _ => (Z.of_nat (String.length col) + 3)%Z
        end in
      tableColumnsAcc width (done ++ [(col, colWidth)]) cols'
  end.

Definition tableColumns (width : Z) (cols : list string) : list (string * Z) :=
  tableColumnsAcc width [] cols.

Definition isCellSeparator (s : Span) : bool :=
  match s with
  | textSpan tagTableCellSeparator _ _ => true
  | _ => false
  end.

(** The inner loop over the tag spans of one item: [row], [cell]. *)
Fixpoint rowLoop (columns : list (string * Z)) (row : list string) (cell : string)
    (spans : list Span) : result (list string * string) :=
  match spans with
  | [] => Ok (row, cell)
  | s :: spans' =>
      if (length columns <=? length row)%nat then Ok (row, cell)
      else if isCellSeparator s then rowLoop columns (row ++ [cell]) "" spans'
      else
        col <- listIndex columns (length row) ;;
        rowLoop columns row (cell ++ renderSpan (snd col) s) spans'
  end.

Definition tableRow (columns : list (string * Z)) (it : listItem) : result (list string) :=
  '(row, cell) <- rowLoop columns [] "" (itemTag it) ;;
  Ok (if (0 <? String.length cell)%nat then row ++ [cell] else row).

Fixpoint tableRows (columns : list (string * Z)) (items : list listItem)
    : result (list (list string)) :=
  match items with
  | [] => Ok []
  | it :: items' =>
      row <- tableRow columns it ;;
      rows <- tableRows columns items' ;;
      Ok (row :: rows)
  end.

Fixpoint indexNewline (s : string) : option nat :=
  match s with
  | EmptyString => None
  | String c s' => if (nat_of_ascii c =? 10)%nat then Some 0%nat else option_map S (indexNewline s')
  end.

Definition RenderTable (l : mdocList) (width : Z) : result string :=
  let columns := tableColumns width (listColumns l) in
  rows <- tableRows columns (listItems l) ;;
  let rendered := tableView columns rows width in
  let start := match indexNewline rendered with Some k => S k | None => 0%nat end in
  withoutHeader <- sliceFrom rendered start ;;
  Ok (nl ++ nl ++ withoutHeader)%string.

End Render.

(** ** The span merge pass [manPage.mergeSpans] *)

(** Modelled from the spec: [mergeSpans] is called by main and by
    doc_test.go but its Go code is not among the sources.  Spec, 4.4:
    one forward scan per section or list-item body keeps an accumulator
    text span; a following text span with the same tag and [NoSpace] is
    folded into it, the texts joined by one space unless [NoSpace];
    otherwise the accumulator is flushed and the span starts a new run,
    or, not being a text span, passes through (a list span having its
    item bodies merged in turn).  Tag equality: *)
Definition textTag_eqb (a b : textTag) : bool :=
  match a, b with
  | tagPlain, tagPlain | tagNameRef, tagNameRef | tagArg, tagArg
  | tagEnvVar, tagEnvVar | tagVariable, tagVariable | tagPath, tagPath
  | tagSubsectionHeader, tagSubsectionHeader | tagLiteral, tagLiteral
  | tagSymbolic, tagSymbolic | tagStandard, tagStandard | tagBold, tagBold
  | tagItalic, tagItalic | tagSingleQuote, tagSingleQuote
  | tagDoubleQuote, tagDoubleQuote | tagUnderline, tagUnderline
  | tagTableCellSeparator, tagTableCellSeparator => true
  | _, _ => false
  end.

(** Modelled from the spec: the accumulator flushed as a span. *)
Definition flushAcc (acc : option (textTag * string * bool)) : list Span :=
  match acc with
  | Some (t, x, ns) => [textSpan t x ns]
  | None => []
  end.

(** Modelled from the spec: the forward scan with its accumulator. *)
Fixpoint mergeSeqWith (f : Span -> Span) (acc : option (textTag * string * bool))
    (xs : list Span) : list Span :=
  match xs with
  | [] => flushAcc acc
  | textSpan t x ns :: xs' =>
      match acc with
      | Some (t0, x0, ns0) =>
          if textTag_eqb t t0 && Bool.eqb ns ns0
          then mergeSeqWith f (Some (t0, (x0 ++ (if ns0 then "" else " ") ++ x)%string, ns0)) xs'
          else textSpan t0 x0 ns0 :: mergeSeqWith f (Some (t, x, ns)) xs'
      | None => mergeSeqWith f (Some (t, x, ns)) xs'
      end
  | s :: xs' => flushAcc acc ++ f s :: mergeSeqWith f None xs'
  end.

(** Modelled from the spec: a list span has its item bodies merged. *)
Fixpoint mergeSpan (s : Span) : Span :=
  match s with
  | listSpan (mkList t items c w i cols) =>
      listSpan (mkList t (map (fun it => match it with
                                        | mkListItem tg cs => mkListItem tg (mergeSeqWith mergeSpan None cs)
                                        end) items) c w i cols)
  | _ => s
  end.

(** Modelled from the spec: the merge of one body. *)
Definition mergeSeq (xs : list Span) : list Span := mergeSeqWith mergeSpan None xs.

(** Modelled from the spec: [manPage.mergeSpans], every section merged. *)
Definition mergeSpans (pg : manPage) : manPage :=
  mkManPage (pageName pg) (pageSection pg) (pageDate pg)
    (map (fun s => mkSection (secName s) (mergeSeq (secContents s))) (pageSections pg))
    (pageExtra pg).

(** [TestMerge] of doc_test.go. *)
Example mergeSpans_test :
  mergeSeq [textSpan tagPlain "hello" false; textSpan tagPlain "world" false;
            textSpan tagPlain "man" false; textSpan tagBold "bold" false] =
  [textSpan tagPlain "hello world man" false; textSpan tagBold "bold" false].
Proof. reflexivity. Qed.

(** ** Specification helpers *)

(** [scanClear q p]: scanning the bytes of [p] from quote state [q]
    never stops the tokenizer, i.e. [p] holds no space outside quotes
    and no font escape outside quotes; the result is the quote state at
    the end of [p].  A backslash is read together with the following
    byte; a backslash ending [p] is taken to be followed by a byte
    other than [f]. *)
Fixpoint scanClear (inQuote : bool) (s : string) : option bool :=
  match s with
  | EmptyString => Some inQuote
  | String c r =>
      if (c =? "\")%char then
        match r with
        | String f _ =>
            if (f =? "f")%char then (if inQuote then scanClear inQuote r else None)
            else scanClear inQuote r
        | EmptyString => Some inQuote
        end
      else if (c =? ascii_of_nat 34)%char then scanClear (negb inQuote) r
      else if (c =? " ")%char && negb inQuote then None
      else scanClear inQuote r
  end.

(** Every byte of the string is at least 128: no ASCII byte. *)
Fixpoint allHigh (s : string) : bool :=
  match s with
  | EmptyString => true
  | String c r => (128 <=? nat_of_ascii c)%nat && allHigh r
  end.

(** A decoded rune the tokenizer only appends to the token. *)
Definition plainRune (c : string) : Prop :=
  c <> "\" /\ c <> dq /\ c <> " ".

(** A column list of two columns whose item has three cells. *)
Definition columnList3 : mdocList :=
  mkList columnList
    [mkListItem [textSpan tagPlain "a" false; textSpan tagTableCellSeparator "" false;
                 textSpan tagPlain "b" false; textSpan tagTableCellSeparator "" false;
                 textSpan tagPlain "c" false] []]
    false 0 0 ["x"; "y"].

(** The size of a span: its nodes, through decorated groups and list items. *)
Fixpoint spanSize (s : Span) : nat :=
  match s with
  | decoratedSpan _ cs => S (list_sum (map spanSize cs))
  | listSpan (mkList _ items _ _ _ _) =>
      S (list_sum (map (fun it => match it with
                                  | mkListItem tg cs => list_sum (map spanSize tg) + list_sum (map spanSize cs)
                                  end) items))
  | _ => 1
  end%nat.

(** A text span of tag [t] and flag [ns] continues the run of key [k]. *)
Definition sameRun (t : textTag) (ns : bool) (k : option (textTag * bool)) : bool :=
  match k with
  | Some (t0, ns0) => textTag_eqb t t0 && Bool.eqb ns ns0
  | None => false
  end.

(** The merged form after a span of key [k] (a text span's tag and
    [NoSpace], [None] after a span of another kind or at the start): no
    text span continues the run of the span before it, and every other
    span is a fixed point of [g]. *)
Fixpoint mergedAfter (g : Span -> Span) (k : option (textTag * bool)) (xs : list Span) : Prop :=
  match xs with
  | [] => True
  | textSpan t x ns :: xs' => sameRun t ns k = false /\ mergedAfter g (Some (t, ns)) xs'
  | s :: xs' => g s = s /\ mergedAfter g None xs'
  end.

(** The key of the accumulator. *)
Definition accKey (acc : option (textTag * string * bool)) : option (textTag * bool) :=
  match acc with
  | Some (t, _, ns) => Some (t, ns)
  | None => None
  end.

(** The span is a [textSpan]. *)
Definition isTextSpan (s : Span) : bool :=
  match s with
  | textSpan _ _ _ => true
  | _ => false
  end.

(** The key before the accumulator is not of its run. *)
Definition accFits (k : option (textTag * bool)) (acc : option (textTag * string * bool)) : Prop :=
  match acc with
  | None => k = None
  | Some (t0, _, ns0) => sameRun t0 ns0 k = false
  end.

(** Bytes the tokenizer appends to the token one by one in quote state
    [inQuote]: ASCII bytes other than a backslash and a double quote,
    and no space outside quotes. *)
Fixpoint plainBytes (inQuote : bool) (s : string) : bool :=
  match s with
  | EmptyString => true
  | String c r =>
      (nat_of_ascii c <? 128)%nat && negb (c =? "\")%char
      && negb (c =? ascii_of_nat 34)%char && (inQuote || negb (c =? " ")%char)
      && plainBytes inQuote r
  end.

(** The escape sequence that selects a font in [parseLine]. *)
Definition fontEscape (f : font) : string :=
  match f with
  | fontBold => "\fB"
  | fontItalic => "\fI"
  | fontPlain => "\fR"
  end.

(** ** Vocabulary of the further properties *)

(** A word that [parseLine] emits as one text span: non-empty, made of
    plain bytes, neither a macro name nor a separator. *)
Definition plainWord (w : string) : bool :=
  negb (w =? "") && plainBytes false w && negb (sliceContains macroCases w) && negb (isSeparator w).

(** The alternating-font macros of [parseLine]: the macro, the macro it
    hands the rest of the line to, and the tag of its first word. *)
Definition altTable : list (string * string * textTag) :=
  [("BR", "RB", tagBold); ("RB", "BR", tagPlain); ("RI", "IR", tagPlain); ("IR", "RI", tagItalic)].

(** Text spans for [ws] whose tags alternate between [t1] and [t2]. *)
Fixpoint alternate (t1 t2 : textTag) (ws : list string) : list Span :=
  match ws with
  | [] => []
  | w :: ws' => textSpan t1 w false :: alternate t2 t1 ws'
  end.

(** The enclosure macros of [parseLine] and their decorations. *)
Definition decoTable : list (string * decorationTag) :=
  [("Ql", decorationQuotedLiteral); ("Pq", decorationParens); ("Sq", decorationSingleQuote);
   ("Dq", decorationDoubleQuote); ("Op", decorationOptional)].

(** A [.Sh] line and the section name it opens. *)
Definition isShLine (l : string) : bool := match classify l with KSh => true | _ => false end.
Definition shName (l : string) : string :=
  match sliceFrom l 4 with Ok n => trimQuotes n | _ => "" end.

(** The names of the finished sections and of the current one. *)
Definition builderNames (b : builder) : list string :=
  map secName (pageSections (bPage b)) ++
  match bSection b with Some s => [secName s] | None => [] end.

(** Same sections, same current-section name, same stack depth. *)
Definition sameFrame (b b' : builder) : Prop :=
  pageSections (bPage b') = pageSections (bPage b) /\
  option_map secName (bSection b') = option_map secName (bSection b) /\
  length (bLists b') = length (bLists b).

Definition isBlLine (l : string) : bool := match classify l with KBl => true | _ => false end.
Definition isElLine (l : string) : bool := match classify l with KEl => true | _ => false end.

(** The name of the first [.Nm name] line of [ls], or the empty string. *)
Fixpoint firstNm (ls : list string) : string :=
  match ls with
  | [] => ""
  | l :: ls' => match classify l with KNmFull n _ => n | _ => firstNm ls' end
  end.

(** The width [len(col) + 3] that [RenderTable] gives a column that is
    not the last. *)
Definition headerWidth (col : string) : Z := (Z.of_nat (String.length col) + 3)%Z.

(** [strings.ReplaceAll(s, "\&", "")] *)
Fixpoint replaceAmp (s : string) : string :=
  match s with
  | EmptyString => EmptyString
  | String c r =>
      if (c =? "\")%char then
        match r with
        | String d r' => if (d =? "&")%char then replaceAmp r' else String c (replaceAmp r)
        | EmptyString => s
        end
      else String c (replaceAmp r)
  end.

(** [\s] of package regexp: [\t], [\n], [\f], [\r] and space. *)
Definition isReSpace (c : ascii) : bool :=
  existsb (Nat.eqb (nat_of_ascii c)) [9; 10; 12; 13; 32]%nat.

Fixpoint allReSpace (s : string) : bool :=
  match s with
  | EmptyString => true
  | String c r => isReSpace c && allReSpace r
  end.

(** [allWhitespace.MatchString(s)] for [^\s+$]. *)
Definition allWhitespace (s : string) : bool :=
  match s with
  | EmptyString => false
  | _ => allReSpace s
  end.

(** [strings.TrimSuffix(s, suf)] *)
Definition trimSuffix (s suf : string) : string :=
  let n := String.length s in
  let k := String.length suf in
  if (k <=? n)%nat && (substring (n - k) k s =? suf) then substring 0 (n - k) s else s.

(** [fmt.Sprintf("%d", n)] *)
Definition decimal (n : Z) : string := NilEmpty.string_of_int (Z.to_int n).

(** The bracket pair of [decorationStyles[d.Typ]]: the map has no entry
    for [decorationNone], whose [nil] slice makes the index [[0]] panic. *)
Definition decorationStyle (d : decorationTag) : result (string * string) :=
  match d with
  | decorationNone => Err IndexOutOfRange
  | decorationOptional => Ok ("[", "]")
  | decorationParens => Ok ("(", ")")
  | decorationSingleQuote => Ok ("'", "'")
  | decorationDoubleQuote => Ok (dq, dq)
  | decorationQuotedLiteral => Ok ((chr 226 ++ chr 128 ++ chr 152)%string, (chr 226 ++ chr 128 ++ chr 153)%string)
  end.

(** ** The span renderers: [Span.Render] (render.go)

    The lipgloss styles ([textStyles], [flagStyle]) and the rendering of
    a [*list] are parameters; the rest is the code of [textSpan.Render],
    [flagSpan.Render], [manRef.Render] and [decoratedSpan.Render]. *)
Section SpanRender.

Variable styleRender : textTag -> string -> string.
Variable flagStyleRender : string -> string.
Variable listRender : Z -> mdocList -> result string.

Definition textBody (t : textTag) (text : string) : string :=
  match t with
  | tagEnvVar => "$" ++ text
  | tagSingleQuote => "'" ++ text ++ "'"
  | tagDoubleQuote => dq ++ text ++ dq
  | tagSubsectionHeader => styleRender tagSubsectionHeader text ++ nl
  | _ => styleRender t text
  end.

Definition renderText (t : textTag) (x : string) (ns : bool) : string :=
  let res := textBody t (replaceAmp x) in
  if negb ns && negb (allWhitespace x) then res ++ " " else res.

Definition renderFlag (f : string) (dash ns : bool) : string :=
  let res := flagStyleRender ((if dash then "-" else "") ++ replaceAmp f) in
  if negb ns then res ++ " " else res.

Definition renderManRef (name : string) (sec : option Z) : string :=
  match sec with
  | Some n => name ++ "(" ++ decimal n ++ ")"
  | None => name
  end.

Fixpoint renderSpan (width : Z) (s : Span) : result string :=
  match s with
  | textSpan t x ns => Ok (renderText t x ns)
  | flagSpan f dash ns => Ok (renderFlag f dash ns)
  | manRef name sec => Ok (renderManRef name sec)
  | decoratedSpan d cs =>
      res <- (fix go (cs : list Span) : result string :=
                match cs with
                | [] => Ok ""
                | c :: cs' => r <- renderSpan width c ;; rest <- go cs' ;; Ok (r ++ rest)%string
                end) cs ;;
      '(o, c) <- decorationStyle d ;;
      Ok (o ++ trimSuffix res " " ++ c ++ " ")%string
  | listSpan l => listRender width l
  end.

Fixpoint renderSpans (width : Z) (cs : list Span) : result string :=
  match cs with
  | [] => Ok ""
  | c :: cs' => r <- renderSpan width c ;; rest <- renderSpans width cs' ;; Ok (r ++ rest)%string
  end.

End SpanRender.

(** The value of the Go [listType] constant, as printed by [%d];
    [dashList] and [columnList], which doc.go does not declare, are
    given the next values. *)
Definition listTypeIndex (t : listType) : Z :=
  match t with
  | bulletList => 0 | itemList => 1 | enumList => 2 | tagList => 3 | diagList => 4
  | hangList => 5 | ohangList => 6 | insetList => 7 | dashList => 8 | columnList => 9
  end.

(** [fmt.Sprintf("%2d. ", n)] for [n >= 0]. *)
Definition enumLabel (n : Z) : string :=
  let s := decimal n in
  (if (String.length s <? 2)%nat then " " ++ s else s) ++ ". ".

(** ** The list renderer: [list.Render] (render.go)

    The span renderer, [RenderTable] and the lipgloss primitives
    ([MarginLeft], [Width], [lipgloss.Width], [JoinHorizontal]) and
    [strings.TrimSpace] (Unicode white space) are parameters. *)
Section ListRender.

Variable spanRender : Z -> Span -> result string.
Variable tableRender : mdocList -> Z -> result string.
Variable marginLeft : Z -> string -> string.
Variable fillWidth : Z -> string -> string.
Variable visibleWidth : string -> Z.
Variable joinTop : string -> string -> string.
Variable trimSpace : string -> string.

Definition renderAll (width : Z) (spans : list Span) : result string :=
  fold_left (fun acc s => a <- acc ;; r <- spanRender width s ;; Ok (a ++ r)%string) spans (Ok "").

Definition unknownListPanic (t : listType) : goPanic :=
  PanicValue ("Don't know how to render " ++ decimal (listTypeIndex t) ++ " list").

Definition maxTagWidthOf (l : mdocList) : result Z :=
  match listTyp l with
  | bulletList | dashList => Ok 2%Z
  | tagList => Ok (listWidth l + 1)%Z
  | ohangList => Ok 0%Z
  | enumList => Ok 4%Z
  | itemList => Ok 0%Z
  | t => Err (unknownListPanic t)
  end.

Definition itemTagText (l : mdocList) (width : Z) (i : nat) (it : listItem) : result string :=
  match listTyp l with
  | tagList | ohangList => tag <- renderAll width (itemTag it) ;; Ok (trimSpace tag)
  | bulletList => Ok (bulletGlyph ++ " ")%string
  | dashList => Ok "- "
  | enumList => Ok (enumLabel (Z.of_nat i + 1))
  | itemList => Ok ""
  | t => Err (unknownListPanic t)
  end.

Fixpoint itemsLoop (l : mdocList) (width maxTagWidth : Z) (i : nat) (res : string)
    (items : list listItem) : result string :=
  match items with
  | [] => Ok res
  | it :: items' =>
      let res1 := (res ++ nl ++ (if listCompact l then "" else nl))%string in
      tag <- itemTagText l width i it ;;
      contents0 <- renderAll (width - maxTagWidth) (itemContents it) ;;
      let contents := fillWidth (width - maxTagWidth) contents0 in
      let res2 :=
        if (maxTagWidth <? visibleWidth tag)%Z
        then (res1 ++ tag ++ nl ++ marginLeft maxTagWidth contents)%string
        else (res1 ++ joinTop (fillWidth maxTagWidth tag) contents)%string in
      itemsLoop l width maxTagWidth (S i) res2 items'
  end.

Definition listRenderGo (l : mdocList) (width : Z) : result string :=
  match listTyp l with
  | columnList => tableRender l width
  | _ =>
      maxTagWidth <- maxTagWidthOf l ;;
      res <- itemsLoop l width maxTagWidth 0 "" (listItems l) ;;
      Ok (marginLeft (listIndent l) res)
  end.

End ListRender.

(** * Proofs *)

(** ** UTF-8 decoding *)

Lemma leadOf_lo c :
  (forall lo hi, leadOf c = Lead2 lo hi -> 128 <= lo)%nat /\
  (forall lo hi, leadOf c = Lead3 lo hi -> 128 <= lo)%nat /\
  (forall lo hi, leadOf c = Lead4 lo hi -> 128 <= lo)%nat.
Proof.
  unfold leadOf.
  repeat split; intros lo hi H;
  repeat (match type of H with context [if ?b then _ else _] => destruct b end);
  inversion H; lia.
Qed.

Lemma byteIn_ascii c lo hi :
  (nat_of_ascii c < 128)%nat -> (128 <= lo)%nat -> byteIn c lo hi = false.
Proof.
  intros Hc Hlo. unfold byteIn.
  destruct (Nat.leb_spec lo (nat_of_ascii c)); [lia | reflexivity].
Qed.

Ltac edge r H :=
  cbn [String.length]; rewrite ?Nat.add_0_r, ?Nat.add_1_r;
  destruct r as [|? [|? ?]]; cbn -[decode byteIn];
  rewrite ?H, ?andb_false_r; reflexivity.

Ltac edge2 q :=
  cbn [append]; try (match goal with H : byteIn _ 128 191 = false |- _ => rewrite H end);
  rewrite ?andb_false_r; cbn [List.app andb]; f_equal;
  match goal with
  | IH : forall y, _ -> forall p : string, _, Hc : (nat_of_ascii ?c < 128)%nat |- _ =>
      refine (IH _ _ q eq_refl _ c _ Hc)
  end;
  match goal with Hn : _ = _ |- _ => simpl in Hn |- *; lia end.

Lemma decode_app_ascii : forall p i c r,
  (nat_of_ascii c < 128)%nat ->
  decode i (p ++ String c r) = decode i p ++ decode (i + String.length p) (String c r).
Proof.
  intros p. remember (String.length p) as n eqn:Hn. revert p Hn.
  induction n as [n IH] using (well_founded_induction lt_wf).
  intros p Hn i c r Hc.
  assert (Hb : byteIn c 128 191 = false) by (apply byteIn_ascii; lia).
  assert (Hs : decode i (String c r) = (i, String c EmptyString) :: decode (S i) r)
    by (simpl; apply Nat.ltb_lt in Hc; rewrite Hc; reflexivity).
  destruct p as [|b p1].
  - simpl in Hn. subst n. rewrite Nat.add_0_r. reflexivity.
  - pose proof (leadOf_lo b) as [L2 [L3 L4]].
    rewrite Hn. simpl in Hn.
    remember (String c r) as s eqn:Es.
    change (String b p1 ++ s)%string with (String b (p1 ++ s)).
    replace (i + String.length (String b p1))%nat with (S i + String.length p1)%nat
      by (simpl; lia).
    cbn [decode].
    destruct (nat_of_ascii b <? 128)%nat eqn:Eb.
    + cbn [List.app]. f_equal. subst s. apply (IH (String.length p1)); auto; lia.
    + destruct (leadOf b) as [lo hi|lo hi|lo hi|] eqn:Elead.
      * specialize (L2 lo hi eq_refl).
        destruct p1 as [|c2 r2].
        -- subst s. edge r (byteIn_ascii c lo hi Hc L2).
        -- cbn [append]. destruct (byteIn c2 lo hi).
           ++ cbn [List.app]. f_equal. subst s.
              rewrite (IH (String.length r2)) by (auto; simpl in Hn; lia).
              f_equal. f_equal. simpl. lia.
           ++ cbn [List.app]. f_equal. subst s.
              refine (IH _ _ (String c2 r2) eq_refl _ c r Hc); simpl in Hn |- *; lia.
      * specialize (L3 lo hi eq_refl).
        destruct p1 as [|c2 [|c3 r3]].
        -- subst s. edge r (byteIn_ascii c lo hi Hc L3).
        -- subst s. edge2 (String c2 EmptyString).
        -- cbn [append]. destruct (byteIn c2 lo hi && byteIn c3 128 191).
           ++ cbn [List.app]. f_equal. subst s.
              rewrite (IH (String.length r3)) by (auto; simpl in Hn; lia).
              f_equal. f_equal. simpl. lia.
           ++ cbn [List.app]. f_equal. subst s.
              refine (IH _ _ (String c2 (String c3 r3)) eq_refl _ c r Hc); simpl in Hn |- *; lia.
      * specialize (L4 lo hi eq_refl).
        destruct p1 as [|c2 [|c3 [|c4 r4]]].
        -- subst s. edge r (byteIn_ascii c lo hi Hc L4).
        -- subst s. destruct r; edge2 (String c2 EmptyString).
        -- subst s. edge2 (String c2 (String c3 EmptyString)).
        -- cbn [append]. destruct (byteIn c2 lo hi && byteIn c3 128 191 && byteIn c4 128 191).
           ++ cbn [List.app]. f_equal. subst s.
              rewrite (IH (String.length r4)) by (auto; simpl in Hn; lia).
              f_equal. f_equal. simpl. lia.
           ++ cbn [List.app]. f_equal. subst s.
              refine (IH _ _ (String c2 (String c3 (String c4 r4))) eq_refl _ c r Hc); simpl in Hn |- *; lia.
      * cbn [List.app]. f_equal. subst s. apply (IH (String.length p1)); auto; lia.
Qed.

Lemma plainRune_high b r : (128 <= nat_of_ascii b)%nat -> plainRune (String b r).
Proof.
  intros H. unfold plainRune, dq, chr.
  repeat split; intros E; injection E as E _; subst b; cbv in H; lia.
Qed.

Lemma plainRune_err : plainRune runeErrorEnc.
Proof. unfold plainRune, runeErrorEnc, dq, chr. repeat split; discriminate. Qed.

Lemma byteIn_high c lo hi : (128 <= lo)%nat -> byteIn c lo hi = true -> (128 <=? nat_of_ascii c)%nat = true.
Proof.
  unfold byteIn. intros Hlo H. apply andb_true_iff in H as [H _].
  apply Nat.leb_le in H. apply Nat.leb_le. lia.
Qed.

Lemma decode_high : forall i b p1,
  (128 <= nat_of_ascii b)%nat ->
  exists enc pre p', p1 = (pre ++ p')%string /\ allHigh pre = true /\ plainRune enc /\
    decode i (String b p1) = (i, enc) :: decode (S (String.length pre) + i) p'.
Proof.
  intros i b p1 Hb.
  pose proof (leadOf_lo b) as [L2 [L3 L4]].
  assert (Hbad : exists enc pre p', p1 = (pre ++ p')%string /\ allHigh pre = true /\ plainRune enc /\
    (i, runeErrorEnc) :: decode (S i) p1 = (i, enc) :: decode (S (String.length pre) + i) p').
  { exists runeErrorEnc, EmptyString, p1. split; [reflexivity|]. split; [reflexivity|].
    split; [apply plainRune_err | reflexivity]. }
  cbn [decode].
  destruct (Nat.ltb_spec (nat_of_ascii b) 128); [lia|].
  destruct (leadOf b) as [lo hi|lo hi|lo hi|] eqn:Elead.
  - specialize (L2 lo hi eq_refl).
    destruct p1 as [|c2 r2]; [exact Hbad|].
    destruct (byteIn c2 lo hi) eqn:E2; [|exact Hbad].
    exists (String b (String c2 EmptyString)), (String c2 EmptyString), r2.
    split; [reflexivity|]. split; [cbn [allHigh]; rewrite (byteIn_high _ _ _ L2 E2); reflexivity|].
    split; [apply plainRune_high; lia | reflexivity].
  - specialize (L3 lo hi eq_refl).
    destruct p1 as [|c2 [|c3 r3]]; try exact Hbad.
    destruct (byteIn c2 lo hi) eqn:E2; [|exact Hbad].
    destruct (byteIn c3 128 191) eqn:E3; [|exact Hbad].
    exists (String b (String c2 (String c3 EmptyString))), (String c2 (String c3 EmptyString)), r3.
    split; [reflexivity|].
    split; [cbn [allHigh]; rewrite (byteIn_high _ _ _ L3 E2), (byteIn_high c3 128 191 (le_n _) E3); reflexivity|].
    split; [apply plainRune_high; lia | reflexivity].
  - specialize (L4 lo hi eq_refl).
    destruct p1 as [|c2 [|c3 [|c4 r4]]]; try exact Hbad.
    destruct (byteIn c2 lo hi) eqn:E2; [|exact Hbad].
    destruct (byteIn c3 128 191) eqn:E3; [|exact Hbad].
    destruct (byteIn c4 128 191) eqn:E4; [|exact Hbad].
    exists (String b (String c2 (String c3 (String c4 EmptyString)))),
      (String c2 (String c3 (String c4 EmptyString))), r4.
    split; [reflexivity|].
    split; [cbn [allHigh]; rewrite (byteIn_high _ _ _ L4 E2), (byteIn_high c3 128 191 (le_n _) E3),
      (byteIn_high c4 128 191 (le_n _) E4); reflexivity|].
    split; [apply plainRune_high; lia | reflexivity].
  - exact Hbad.
Qed.

(** ** The tokenizer *)

Lemma high_neq x a : (128 <= nat_of_ascii x)%nat -> (nat_of_ascii a < 128)%nat -> (x =? a)%char = false.
Proof.
  intros Hx Ha. destruct (Ascii.eqb_spec x a); [subst; lia | reflexivity].
Qed.

Lemma scanClear_high : forall h q r, allHigh h = true -> scanClear q (h ++ r) = scanClear q r.
Proof.
  induction h as [|x h IH]; intros q r H; [reflexivity|].
  cbn [allHigh] in H. apply andb_true_iff in H as [Hx H]. apply Nat.leb_le in Hx.
  cbn [append scanClear].
  rewrite (high_neq x "\") by first [exact Hx | apply Nat.ltb_lt; reflexivity].
  rewrite (high_neq x (ascii_of_nat 34)) by first [exact Hx | apply Nat.ltb_lt; reflexivity].
  rewrite (high_neq x " ") by first [exact Hx | apply Nat.ltb_lt; reflexivity].
  apply IH; assumption.
Qed.

Lemma get_app_len : forall a b k, get (String.length a + k) (a ++ b) = get k b.
Proof. induction a as [|x a IH]; intros b k; [reflexivity|]. apply IH. Qed.

Lemma streq1 a b : (String a EmptyString =? String b EmptyString) = (a =? b)%char.
Proof. simpl. destruct (a =? b)%char; reflexivity. Qed.

Lemma length_append_str : forall a b, String.length (a ++ b) = (String.length a + String.length b)%nat.
Proof. induction a as [|x a IH]; intros b; [reflexivity|]. cbn. rewrite IH. reflexivity. Qed.

Lemma append_assoc_str : forall a b c, ((a ++ b) ++ c)%string = (a ++ (b ++ c))%string.
Proof. induction a as [|x a IH]; intros b c; [reflexivity|]. cbn. rewrite IH. reflexivity. Qed.

Lemma nextTokenLoop_scan : forall n p input i q q' token more,
  String.length p = n ->
  scanClear q p = Some q' ->
  (forall k, (k < String.length p)%nat -> get (i + k) input = get k p) ->
  (exists a, get (i + String.length p) input = Some a /\ a <> "f"%char) ->
  exists token', nextTokenLoop input q token (decode i p ++ more)
                 = nextTokenLoop input q' token' more.
Proof.
  induction n as [n IH] using (well_founded_induction lt_wf).
  intros p input i q q' token more Hn Hscan Hloc Hnext.
  destruct p as [|b p1].
  - cbn in Hscan. injection Hscan as <-. exists token. reflexivity.
  - cbn [String.length] in Hn.
    assert (Hloc1 : forall k, (k < String.length p1)%nat -> get (S i + k) input = get k p1).
    { intros k Hk. change (get k p1) with (get (S k) (String b p1)).
      rewrite <- (Hloc (S k)) by (cbn; lia). f_equal. lia. }
    assert (Hnext1 : exists a, get (S i + String.length p1) input = Some a /\ a <> "f"%char).
    { destruct Hnext as [a [Ha Hf]]. exists a. split; [|exact Hf].
      rewrite <- Ha. f_equal. cbn. lia. }
    destruct (Nat.ltb_spec (nat_of_ascii b) 128) as [Hlow|Hhigh].
    + assert (Hd : decode i (String b p1) = (i, String b EmptyString) :: decode (S i) p1).
      { cbn [decode]. apply Nat.ltb_lt in Hlow. rewrite Hlow. reflexivity. }
      rewrite Hd. cbn [List.app nextTokenLoop]. rewrite !streq1.
      cbn [scanClear] in Hscan.
      destruct (Ascii.eqb_spec b "\") as [->|Hbs].
      * unfold goIndex.
        destruct p1 as [|f r].
        -- destruct Hnext as [a [Ha Hf]]. cbn [String.length] in Ha.
           rewrite Nat.add_1_r in Ha. rewrite Ha. cbn [bind].
           destruct (Ascii.eqb_spec a "f"); [contradiction|].
           injection Hscan as <-. exists token. reflexivity.
        -- assert (Hg : get (S i) input = Some f)
             by (rewrite <- Nat.add_1_r; apply (Hloc 1); cbn; lia).
           rewrite Hg. cbn [bind].
           destruct (Ascii.eqb_spec f "f") as [->|Hf].
           ++ destruct q; [|discriminate].
              refine (IH _ _ _ _ _ _ _ _ _ eq_refl Hscan Hloc1 Hnext1); lia.
           ++ refine (IH _ _ _ _ _ _ _ _ _ eq_refl Hscan Hloc1 Hnext1); lia.
      * destruct (Ascii.eqb_spec b (ascii_of_nat 34)) as [->|Hdq].
        -- unfold dq, chr. rewrite streq1, Ascii.eqb_refl.
           destruct q; cbn [negb andb]; cbn [negb] in Hscan;
             refine (IH _ _ _ _ _ _ _ _ _ eq_refl Hscan Hloc1 Hnext1); lia.
        -- unfold dq, chr. rewrite streq1.
           destruct (Ascii.eqb_spec b (ascii_of_nat 34)); [contradiction|].
           cbn [andb].
           destruct (Ascii.eqb_spec b " ") as [->|Hsp].
           ++ destruct q; [|discriminate]. cbn [negb andb] in *.
              refine (IH _ _ _ _ _ _ _ _ _ eq_refl Hscan Hloc1 Hnext1); lia.
           ++ cbn [andb] in *.
              refine (IH _ _ _ _ _ _ _ _ _ eq_refl Hscan Hloc1 Hnext1); lia.
    + destruct (decode_high i b p1 Hhigh) as (enc & pre & p' & -> & Hpre & Hplain & Hd).
      rewrite Hd. cbn [List.app nextTokenLoop].
      destruct Hplain as (H1 & H2 & H3).
      apply String.eqb_neq in H1, H2, H3. rewrite H1, H2, H3. cbn [andb].
      change (String b (pre ++ p')) with (String b pre ++ p')%string in Hscan.
      rewrite scanClear_high in Hscan
        by (cbn [allHigh]; rewrite Hpre, andb_true_r; apply Nat.leb_le; exact Hhigh).
      rewrite length_append_str in Hn.
      refine (IH (String.length p') ltac:(lia) p' input _ q q' _ more eq_refl Hscan _ _).
      * intros k Hk.
        rewrite <- (get_app_len (String b pre) p' k).
        rewrite <- Hloc by (cbn; rewrite length_append_str; lia).
        f_equal. cbn. lia.
      * destruct Hnext as [a [Ha Hf]]. exists a. split; [|exact Hf].
        rewrite <- Ha. f_equal. cbn. rewrite length_append_str. lia.
Qed.

Lemma substring_all : forall s, substring 0 (String.length s) s = s.
Proof. induction s as [|c s IH]; [reflexivity|]. cbn. rewrite IH. reflexivity. Qed.

Lemma sliceFrom_app : forall a b, sliceFrom (a ++ b) (String.length a) = Ok b.
Proof.
  intros a b. unfold sliceFrom. rewrite length_append_str.
  replace (String.length a <=? String.length a + String.length b)%nat with true
    by (symmetry; apply Nat.leb_le; lia).
  f_equal. replace (String.length a + String.length b - String.length a)%nat
    with (String.length b) by lia.
  induction a as [|x a IH]; [apply substring_all | exact IH].
Qed.

Lemma get_app_lt : forall a b k, (k < String.length a)%nat -> get k (a ++ b) = get k a.
Proof. intros a b k Hk. symmetry. apply append_correct1. exact Hk. Qed.

Lemma nextToken_cons : forall c r,
  nextToken (String c r) = nextTokenLoop (String c r) false "" (decode 0 (String c r)).
Proof. reflexivity. Qed.

Lemma nextToken_app_nonempty : forall p c r,
  nextToken (p ++ String c r) = nextTokenLoop (p ++ String c r) false "" (decode 0 (p ++ String c r)).
Proof. intros [|x p] c r; apply nextToken_cons. Qed.

(** C3 (amended).  An empty input gives the empty pair; otherwise the
    token ends at the first space that is outside quotes (with no font
    escape before it), and the remainder is exactly what follows that
    space: leading spaces of the remainder are not skipped. *)
Theorem nextToken_ends_at_space :
  nextToken "" = Ok ("", "") /\
  forall p r, scanClear false p = Some false ->
    exists tok, nextToken (p ++ " " ++ r) = Ok (tok, r).
Proof.
  split; [reflexivity|].
  intros p r Hscan.
  change (" " ++ r)%string with (String " " r).
  rewrite nextToken_app_nonempty.
  rewrite decode_app_ascii by (apply Nat.ltb_lt; reflexivity).
  destruct (nextTokenLoop_scan _ p (p ++ String " " r) 0 false false ""
      (decode (0 + String.length p) (String " " r)) eq_refl Hscan)
    as [tok Htok].
  - intros k Hk. apply get_app_lt. exact Hk.
  - exists " "%char. split; [|discriminate].
    pose proof (get_app_len p (String " " r) 0) as H. rewrite Nat.add_0_r in H. exact H.
  - exists tok. rewrite Htok.
    assert (Hd : decode (0 + String.length p) (String " " r)
                 = (String.length p, " ") :: decode (S (String.length p)) r) by reflexivity.
    rewrite Hd. cbn [nextTokenLoop]. unfold dq, chr.
    assert (Hs : sliceFrom (p ++ String " " r) (S (String.length p)) = Ok r).
    { change (String " " r) with (String " " EmptyString ++ r)%string.
      rewrite <- append_assoc_str.
      replace (S (String.length p)) with (String.length (p ++ String " " EmptyString)%string)
        by (rewrite length_append_str; cbn; lia).
      apply sliceFrom_app. }
    rewrite Hs. reflexivity.
Qed.

Lemma nextToken_ends_at_space_witness :
  scanClear false "a" = Some false /\ exists tok, nextToken ("a" ++ " " ++ "b") = Ok (tok, "b").
Proof.
  split; [reflexivity|].
  exact (proj2 nextToken_ends_at_space "a" "b" eq_refl).
Defined.

(** C3, counterexample: with two spaces after the token, the remainder
    keeps the second one. *)
Lemma nextToken_double_space : nextToken "a  b" = Ok ("a", " b").
Proof. reflexivity. Qed.

(** C9 (amended).  When the bytes before a final backslash let the
    scan reach it (no unquoted space, no unquoted font escape), the
    lookahead [input[i+1]] is out of range and the call panics. *)
Theorem nextToken_trailing_backslash_panics : forall p q,
  scanClear false p = Some q -> nextToken (p ++ "\") = Err IndexOutOfRange.
Proof.
  intros p q Hscan.
  rewrite nextToken_app_nonempty.
  rewrite decode_app_ascii by (apply Nat.ltb_lt; reflexivity).
  destruct (nextTokenLoop_scan _ p (p ++ "\") 0 false q ""
      (decode (0 + String.length p) "\") eq_refl Hscan)
    as [tok Htok].
  - intros k Hk. apply get_app_lt. exact Hk.
  - exists "\"%char. split; [|discriminate].
    pose proof (get_app_len p "\" 0) as H. rewrite Nat.add_0_r in H. exact H.
  - rewrite Htok.
    assert (Hd : decode (0 + String.length p) "\" = [(String.length p, "\")]) by reflexivity.
    rewrite Hd. cbn [nextTokenLoop]. unfold goIndex.
    pose proof (get_app_len p "\" 1) as H. rewrite Nat.add_1_r in H. rewrite H.
    reflexivity.
Qed.

Lemma nextToken_trailing_backslash_panics_witness :
  scanClear false "a" = Some false /\ nextToken ("a" ++ "\") = Err IndexOutOfRange.
Proof.
  split; [reflexivity|].
  apply (nextToken_trailing_backslash_panics "a" false). reflexivity.
Defined.

(** C9, counterexample: a string ending in a backslash on which the
    call does not panic, the token having ended at the space. *)
Lemma nextToken_space_before_backslash : nextToken "a \" = Ok ("a", "\").
Proof. reflexivity. Qed.

(** C4.  A backslash that is the last byte of the input is not dropped:
    its font-escape lookahead [input[i+1]] panics. *)
Theorem nextToken_backslash_last_not_dropped : nextToken "a\" = Err IndexOutOfRange.
Proof. reflexivity. Qed.

(** ** The document builder *)

Lemma processLines_app : forall sh b xs ys,
  processLines sh b (xs ++ ys) = (b' <- processLines sh b xs ;; processLines sh b' ys).
Proof.
  intros sh b xs. revert b. induction xs as [|x xs IH]; intros b ys; [reflexivity|].
  cbn [List.app processLines]. destruct (processLine sh b x); cbn [bind]; auto.
Qed.

(** Text before any section header panics in [addSpans]. *)
Lemma parseMdoc_no_section_header :
  parseMdoc simpleSplit "plain text" = Err (PanicValue "can't add spans, no current section").
Proof. reflexivity. Qed.

Lemma processLines_item_without_list : forall sh b0 pre l post b,
  processLines sh b0 pre = Ok b ->
  bLists b = [] ->
  classify l = KIt ->
  ((String.length l <= 4)%nat \/
   exists s p' tag, sliceFrom l 4 = Ok s /\ parseLine (bParser b) s = Ok (p', tag)) ->
  processLines sh b0 (pre ++ l :: post) = Err IndexOutOfRange.
Proof.
  intros sh b0 pre l post b Hpre Hnil Hk Htag.
  rewrite processLines_app, Hpre. cbn [bind processLines].
  unfold processLine. rewrite Hk.
  destruct Htag as [Hlen | (s & p' & tag & Hs & Hp)].
  - replace (4 <? String.length l)%nat with false by (symmetry; apply Nat.ltb_ge; lia).
    cbn [bind]. cbn. rewrite Hnil. reflexivity.
  - destruct (Nat.ltb (4) (String.length l)); cbn [bind].
    + rewrite Hs. cbn [bind]. rewrite Hp. cbn. rewrite Hnil. reflexivity.
    + cbn. rewrite Hnil. reflexivity.
Qed.



(** C10.  When a list-item line [.It] is reached while the list stack
    is empty (and the item's tag line, if any, was parsed), [parseMdoc]
    panics with an index out of range: [lists.Peek()] reads the last
    element of an empty slice. *)
Theorem parseMdoc_item_without_list : forall sh doc pre l post b,
  splitLines doc = pre ++ l :: post ->
  processLines sh builder0 pre = Ok b ->
  bLists b = [] ->
  classify l = KIt ->
  ((String.length l <= 4)%nat \/
   exists s p' tag, sliceFrom l 4 = Ok s /\ parseLine (bParser b) s = Ok (p', tag)) ->
  parseMdoc sh doc = Err IndexOutOfRange.
Proof.
  intros sh doc pre l post b Hsplit Hpre Hnil Hk Htag.
  unfold parseMdoc, parseMdocFrom. rewrite Hsplit.
  rewrite (processLines_item_without_list sh builder0 pre l post b Hpre Hnil Hk Htag).
  reflexivity.
Qed.

Lemma parseMdoc_item_without_list_witness :
  splitLines ".It" = [] ++ [".It"] /\ parseMdoc simpleSplit ".It" = Err IndexOutOfRange.
Proof.
  split; [reflexivity|].
  apply (parseMdoc_item_without_list simpleSplit ".It" [] ".It" [] builder0);
    [reflexivity | reflexivity | reflexivity | reflexivity | left; cbn; lia].
Defined.

Lemma sliceIndex_none : forall xs x, ~ In x xs -> sliceIndex xs x = None.
Proof.
  induction xs as [|y xs IH]; intros x Hn; [reflexivity|].
  cbn [sliceIndex]. destruct (String.eqb_spec y x) as [->|_].
  - exfalso. apply Hn. left. reflexivity.
  - rewrite IH; [reflexivity|]. intros H. apply Hn. right. exact H.
Qed.

Lemma sliceIndex_app : forall pre x r, ~ In x pre -> sliceIndex (pre ++ x :: r) x = Some (length pre).
Proof.
  induction pre as [|y pre IH]; intros x r Hn.
  - cbn. rewrite String.eqb_refl. reflexivity.
  - cbn [List.app sliceIndex length]. destruct (String.eqb_spec y x) as [->|_].
    + exfalso. apply Hn. left. reflexivity.
    + rewrite IH; [reflexivity|]. intros H. apply Hn. right. exact H.
Qed.

Lemma listIndex_app {A} : forall (pre : list A) x y post,
  listIndex (pre ++ x :: y :: post) (S (length pre)) = Ok y.
Proof. intros. unfold listIndex. induction pre as [|z pre IH]; [reflexivity | exact IH]. Qed.

(** C7.  For a [.Bl] line whose options select the tag kind (no
    [-bullet], no [-enum], a [-tag]): without [-width] the line itself
    panics with the message of [parseMdoc]; with [-width tok] (its first
    occurrence) the list pushed on the stack is a tag list whose width
    is the length of [tok]. *)
Theorem processLine_tag_list_width : forall sh b l s args,
  classify l = KBl ->
  sliceFrom l 4 = Ok s ->
  sh s = Some args ->
  sliceContains args "-bullet" = false ->
  sliceContains args "-enum" = false ->
  sliceContains args "-tag" = true ->
  (~ In "-width" args ->
   processLine sh b l = Err (PanicValue "missing -width argument to .Bl tag list")) /\
  (forall pre tok post b',
   args = pre ++ "-width" :: tok :: post -> ~ In "-width" pre ->
   processLine sh b l = Ok b' ->
   exists lst, bLists b' = lst :: bLists b /\ listTyp lst = tagList /\
               listWidth lst = Z.of_nat (String.length tok)).
Proof.
  intros sh b l s args Hk Hs Hsh Hbul Henum Htag.
  assert (Hpre : processLine sh b l = (lst <- blList args ;; Ok (setLists b (lst :: bLists b)))).
  { unfold processLine. rewrite Hk, Hs. cbn [bind]. unfold shlexOrPanic. rewrite Hsh. reflexivity. }
  rewrite Hpre. unfold blList, blKind. rewrite Hbul, Henum, Htag.
  split.
  - intros Hn. rewrite (sliceIndex_none _ _ Hn). reflexivity.
  - intros pre tok post b' -> Hn.
    rewrite (sliceIndex_app _ _ _ Hn), listIndex_app. cbn [bind].
    destruct (sliceIndex (pre ++ "-width" :: tok :: post) "-offset") as [i|]; cbn [bind].
    + destruct (listIndex (pre ++ "-width" :: tok :: post) (S i)); cbn [bind]; try discriminate.
      intros H. injection H as <-. eexists. split; [reflexivity|]. split; reflexivity.
    + intros H. injection H as <-. eexists. split; [reflexivity|]. split; reflexivity.
Qed.

Lemma processLine_tag_list_width_witness :
  processLine simpleSplit builder0 ".Bl -tag" = Err (PanicValue "missing -width argument to .Bl tag list") /\
  exists lst, bLists (setLists builder0 [mkList tagList [] false 6 0 []]) = lst :: bLists builder0 /\
    listTyp lst = tagList /\ listWidth lst = Z.of_nat (String.length "indent").
Proof.
  split.
  - apply (proj1 (processLine_tag_list_width simpleSplit builder0 ".Bl -tag" "-tag" ["-tag"]
             eq_refl eq_refl eq_refl eq_refl eq_refl eq_refl)).
    cbn. intros [H|[]]. discriminate.
  - apply (proj2 (processLine_tag_list_width simpleSplit builder0 ".Bl -tag -width indent"
             "-tag -width indent" ["-tag"; "-width"; "indent"]
             eq_refl eq_refl eq_refl eq_refl eq_refl eq_refl) ["-tag"] "indent" []).
    + reflexivity.
    + cbn. intros [H|[]]. discriminate.
    + reflexivity.
Defined.

(** ** The macro interpreter *)

(** C5.  A separator token [,] or [|] is emitted as a plain text span
    and arms [repeatMacro]; when it is armed, a token with no case of the
    [switch] re-prefixes the remaining line (that token included) with
    [lastMacro] and a space, disarms the flag and emits nothing. *)
Theorem lineStep_separator_repeat : forall parseLineRec p st tok rest,
  nextToken (line st) = Ok (tok, rest) ->
  (isSeparator tok = true ->
   lineStep parseLineRec p st =
   Ok (Continue p (mkLineState rest (res st ++ [textSpan tagPlain tok false]) (lastMacro st) true))) /\
  (~ In tok macroCases -> isSeparator tok = false -> tok <> "" -> repeatMacro st = true ->
   lineStep parseLineRec p st =
   Ok (Continue p (mkLineState (lastMacro st ++ " " ++ line st) (res st) (lastMacro st) false))).
Proof.
  intros parseLineRec p st tok rest Htok.
  unfold lineStep. rewrite Htok. cbn [bind].
  split.
  - intros Hsep. unfold isSeparator in Hsep.
    apply orb_true_iff in Hsep as [E|E]; apply String.eqb_eq in E; subst tok; reflexivity.
  - intros Hn Hsep Hne Hrep. rewrite Hsep, Hrep.
    repeat match goal with
    | |- context [tok =? ?s] =>
        destruct (String.eqb_spec tok s);
        [ subst tok; exfalso; first [ apply Hne; reflexivity | apply Hn; cbn [macroCases In]; repeat (first [left; reflexivity | right]) ] | ]
    end.
    reflexivity.
Qed.

Lemma lineStep_separator_repeat_witness :
  lineStep parseLine p0 (mkLineState ", b" [textSpan tagArg "a" false] "Ar" false) =
    Ok (Continue p0 (mkLineState "b" [textSpan tagArg "a" false; textSpan tagPlain "," false] "Ar" true)) /\
  lineStep parseLine p0 (mkLineState "b" [textSpan tagArg "a" false; textSpan tagPlain "," false] "Ar" true) = Ok (Continue p0 (mkLineState ("Ar" ++ " " ++ "b") [textSpan tagArg "a" false; textSpan tagPlain "," false] "Ar" false)).
Proof.
  split.
  - apply (proj1 (lineStep_separator_repeat parseLine p0 (mkLineState ", b" [textSpan tagArg "a" false] "Ar" false) "," "b" eq_refl)). reflexivity.
  - apply (proj2 (lineStep_separator_repeat parseLine p0 (mkLineState "b" [textSpan tagArg "a" false; textSpan tagPlain "," false] "Ar" true) "b" "" eq_refl)).
    + cbn. intros H. repeat (destruct H as [H|H]; [discriminate H|]). exact H.
    + reflexivity.
    + discriminate.
    + reflexivity.
Defined.

(** C6.  [Ns] panics with an index out of range when no span has been
    emitted; otherwise it sets [NoSpace] on the last span of [res],
    leaving the spans before it unchanged. *)
Theorem lineStep_no_space : forall parseLineRec p st rest,
  nextToken (line st) = Ok ("Ns", rest) ->
  (res st = [] -> lineStep parseLineRec p st = Err IndexOutOfRange) /\
  (forall pre t x ns, res st = pre ++ [textSpan t x ns] ->
   lineStep parseLineRec p st =
   Ok (Continue p (mkLineState rest (pre ++ [textSpan t x true]) (lastMacro st) (repeatMacro st)))) /\
  (forall pre f d ns, res st = pre ++ [flagSpan f d ns] ->
   lineStep parseLineRec p st =
   Ok (Continue p (mkLineState rest (pre ++ [flagSpan f d true]) (lastMacro st) (repeatMacro st)))).
Proof.
  intros parseLineRec p st rest Htok.
  assert (Hstep : lineStep parseLineRec p st = nsMacro p st rest)
    by (unfold lineStep; rewrite Htok; reflexivity).
  rewrite Hstep. unfold nsMacro.
  split; [|split].
  - intros H. rewrite H. reflexivity.
  - intros pre t x ns H. rewrite H, rev_app_distr. cbn. rewrite rev_involutive. reflexivity.
  - intros pre f d ns H. rewrite H, rev_app_distr. cbn. rewrite rev_involutive. reflexivity.
Qed.

Lemma lineStep_no_space_witness :
  lineStep parseLine p0 (mkLineState "Ns" [] "" false) = Err IndexOutOfRange /\
  lineStep parseLine p0 (mkLineState "Ns x" [flagSpan "t" true false] "Fl" false) =
    Ok (Continue p0 (mkLineState "x" [flagSpan "t" true true] "Fl" false)).
Proof.
  split.
  - apply (proj1 (lineStep_no_space parseLine p0 (mkLineState "Ns" [] "" false) "" eq_refl)).
    reflexivity.
  - apply (proj2 (proj2 (lineStep_no_space parseLine p0
             (mkLineState "Ns x" [flagSpan "t" true false] "Fl" false) "x" eq_refl)) [] "t" true false).
    reflexivity.
Defined.

(** ** The column-list renderer *)

Lemma tableColumnsAcc_length : forall width cols done,
  length (tableColumnsAcc width done cols) = (length done + length cols)%nat.
Proof.
  induction cols as [|c cols IH]; intros done; cbn [tableColumnsAcc length].
  - lia.
  - rewrite IH, length_app. cbn. lia.
Qed.

Lemma rowLoop_bound : forall renderSpan columns spans row cell row' cell',
  ((length row < length columns)%nat \/ (length row = length columns /\ cell = "")) ->
  rowLoop renderSpan columns row cell spans = Ok (row', cell') ->
  (length row' < length columns)%nat \/ (length row' = length columns /\ cell' = "").
Proof.
  intros renderSpan columns spans.
  induction spans as [|s spans IH]; intros row cell row' cell' Hinv H; cbn [rowLoop] in H.
  - injection H as <- <-. exact Hinv.
  - destruct (Nat.leb_spec (length columns) (length row)).
    + injection H as <- <-. exact Hinv.
    + destruct (isCellSeparator s).
      * refine (IH _ _ _ _ _ H). rewrite length_app. cbn.
        destruct (Nat.eq_dec (length row + 1) (length columns));
          [right; split; [lia | reflexivity] | left; lia].
      * destruct (listIndex columns (length row)) as [col| |]; cbn [bind] in H; try discriminate.
        refine (IH _ _ _ _ _ H). left. assumption.
Qed.

Lemma tableRow_bound : forall renderSpan columns it row,
  tableRow renderSpan columns it = Ok row -> (length row <= length columns)%nat.
Proof.
  intros renderSpan columns it row H. unfold tableRow in H.
  destruct (rowLoop renderSpan columns [] "" (itemTag it)) as [[r c]| |] eqn:E;
    cbn [bind] in H; try discriminate.
  injection H as <-.
  assert (H0 : (length (@nil string) < length columns)%nat \/
               (length (@nil string) = length columns /\ "" = "")).
  { destruct columns; cbn; [right; split; reflexivity | left; lia]. }
  destruct (rowLoop_bound renderSpan columns _ [] "" r c H0 E) as [Hlt|[Heq ->]].
  - destruct (0 <? String.length c)%nat; [rewrite length_app; cbn|]; lia.
  - cbn. lia.
Qed.

(** C8.  Every row handed to the table by [RenderTable] has at most
    as many cells as the list declares columns, whatever the rendering
    of spans: spans beyond the last column are dropped, and the final
    cell is appended only to a row with room for it. *)
Theorem RenderTable_rows_bounded : forall renderSpan width l rows,
  tableRows renderSpan (tableColumns width (listColumns l)) (listItems l) = Ok rows ->
  Forall (fun r => (length r <= length (listColumns l))%nat) rows.
Proof.
  intros renderSpan width l.
  assert (Hlen : length (tableColumns width (listColumns l)) = length (listColumns l))
    by (unfold tableColumns; rewrite tableColumnsAcc_length; reflexivity).
  rewrite <- Hlen.
  generalize (tableColumns width (listColumns l)) as columns. intros columns.
  clear Hlen.
  induction (listItems l) as [|it items IH]; intros rows H; cbn [tableRows] in H.
  - injection H as <-. constructor.
  - destruct (tableRow renderSpan columns it) as [row| |] eqn:E1; cbn [bind] in H; try discriminate.
    destruct (tableRows renderSpan columns items) as [rs| |]; cbn [bind] in H; try discriminate.
    injection H as <-. constructor.
    + exact (tableRow_bound _ _ _ _ E1).
    + apply IH. reflexivity.
Qed.

Lemma RenderTable_rows_bounded_witness :
  tableRows (fun _ s => match s with textSpan _ x _ => x | _ => "" end)
    (tableColumns 40 (listColumns columnList3)) (listItems columnList3) = Ok [["a"; "b"]] /\
  Forall (fun r => (length r <= length (listColumns columnList3))%nat) [["a"; "b"]].
Proof.
  split; [reflexivity|].
  apply (RenderTable_rows_bounded (fun _ s => match s with textSpan _ x _ => x | _ => "" end) 40 columnList3).
  reflexivity.
Defined.

(** ** The span merge pass *)

Lemma mergedAfter_nontext : forall g k y rest, isTextSpan y = false ->
  mergedAfter g k (y :: rest) = (g y = y /\ mergedAfter g None rest).
Proof. intros g k y rest H. destruct y; try discriminate; reflexivity. Qed.

Lemma mergeSeqWith_nontext : forall f acc y xs, isTextSpan y = false ->
  mergeSeqWith f acc (y :: xs) = flushAcc acc ++ f y :: mergeSeqWith f None xs.
Proof. intros f acc y xs H. destruct y; try discriminate; reflexivity. Qed.

Lemma mergeSeqWith_merged_id : forall g xs acc,
  mergedAfter g (accKey acc) xs -> mergeSeqWith g acc xs = flushAcc acc ++ xs.
Proof.
  intros g. induction xs as [|y xs IH]; intros acc H.
  - rewrite app_nil_r. reflexivity.
  - destruct (isTextSpan y) eqn:Ey.
    + destruct y as [t x ns| | | |]; try discriminate.
      destruct H as [Hrun H].
      destruct acc as [[[t0 x0] ns0]|]; cbn [mergeSeqWith].
      * cbn in Hrun. rewrite Hrun. rewrite (IH (Some (t, x, ns)) H). reflexivity.
      * rewrite (IH (Some (t, x, ns)) H). reflexivity.
    + rewrite mergedAfter_nontext in H by exact Ey. destruct H as [Hg H].
      rewrite mergeSeqWith_nontext by exact Ey.
      rewrite Hg, (IH None H). reflexivity.
Qed.

Lemma mergeSeqWith_merged : forall f g xs acc k,
  (forall s, In s xs -> isTextSpan s = false -> isTextSpan (f s) = false /\ g (f s) = f s) ->
  accFits k acc -> mergedAfter g k (mergeSeqWith f acc xs).
Proof.
  intros f g. induction xs as [|y xs IH]; intros acc k Hf Hk.
  - destruct acc as [[[t0 x0] ns0]|]; cbn; [split; [exact Hk | exact I] | exact I].
  - assert (Hf' : forall s, In s xs -> isTextSpan s = false ->
                    isTextSpan (f s) = false /\ g (f s) = f s)
      by (intros s Hs; apply Hf; right; exact Hs).
    destruct (isTextSpan y) eqn:Ey.
    + destruct y as [t x ns| | | |]; try discriminate.
      destruct acc as [[[t0 x0] ns0]|]; cbn [mergeSeqWith].
      * destruct (textTag_eqb t t0 && Bool.eqb ns ns0) eqn:Erun.
        -- apply IH; [exact Hf' | exact Hk].
        -- cbn [mergedAfter]. split; [exact Hk|].
           apply IH; [exact Hf' | exact Erun].
      * apply IH; [exact Hf' | cbn in Hk; subst k; reflexivity].
    + rewrite mergeSeqWith_nontext by exact Ey.
      destruct (Hf y (or_introl eq_refl) Ey) as [Hft Hg].
      assert (Hrest : mergedAfter g k (f y :: mergeSeqWith f None xs)).
      { rewrite mergedAfter_nontext by exact Hft. split; [exact Hg|].
        apply IH; [exact Hf' | reflexivity]. }
      destruct acc as [[[t0 x0] ns0]|]; cbn [flushAcc List.app].
      * change (sameRun t0 ns0 k = false /\
                mergedAfter g (Some (t0, ns0)) (f y :: mergeSeqWith f None xs)).
        split; [exact Hk|].
        rewrite mergedAfter_nontext by exact Hft.
        rewrite mergedAfter_nontext in Hrest by exact Hft. exact Hrest.
      * exact Hrest.
Qed.

Lemma list_sum_in : forall (f : Span -> nat) xs s, In s xs -> (f s <= list_sum (map f xs))%nat.
Proof.
  intros f. induction xs as [|y xs IH]; intros s H; [destruct H|].
  simpl. destruct H as [->|H]; [lia|]. specialize (IH s H). lia.
Qed.

Lemma list_sum_in_item : forall (h : listItem -> nat) items it,
  In it items -> (h it <= list_sum (map h items))%nat.
Proof.
  intros h. induction items as [|y items IH]; intros it H; [destruct H|].
  simpl. destruct H as [->|H]; [lia|]. specialize (IH it H). lia.
Qed.

Lemma mergeSpan_text : forall s, isTextSpan (mergeSpan s) = isTextSpan s.
Proof. intros [| | | |[]]; reflexivity. Qed.

Lemma mergeSpan_idem_size : forall n s, (spanSize s < n)%nat -> mergeSpan (mergeSpan s) = mergeSpan s.
Proof.
  induction n as [|n IH]; intros s Hs; [lia|].
  destruct s as [| | | |[t items c w i cols]]; try reflexivity.
  cbn [mergeSpan]. rewrite map_map. do 2 f_equal.
  apply map_ext_in. intros [tg cs] Hin.
  f_equal.
  apply mergeSeqWith_merged_id. cbn [accKey].
  apply mergeSeqWith_merged; [|reflexivity].
  intros s Hs' Hnt. rewrite mergeSpan_text. split; [exact Hnt|].
  apply IH.
  cbn [spanSize] in Hs.
  pose proof (list_sum_in_item
    (fun it => match it with
               | mkListItem tg cs => (list_sum (map spanSize tg) + list_sum (map spanSize cs))%nat
               end) items (mkListItem tg cs) Hin) as H1.
  pose proof (list_sum_in spanSize cs s Hs') as H2.
  cbn beta iota in H1. lia.
Qed.

Lemma mergeSpan_idem : forall s, mergeSpan (mergeSpan s) = mergeSpan s.
Proof. intros s. apply (mergeSpan_idem_size (S (spanSize s))). lia. Qed.

Lemma mergeSeq_idem : forall xs, mergeSeq (mergeSeq xs) = mergeSeq xs.
Proof.
  intros xs. unfold mergeSeq.
  apply mergeSeqWith_merged_id. cbn [accKey].
  apply mergeSeqWith_merged; [|reflexivity].
  intros s _ Hnt. rewrite mergeSpan_text. split; [exact Hnt | apply mergeSpan_idem].
Qed.

(** C2.  The merge pass, as the spec describes it, is idempotent:
    merging an already merged page changes no section and no list-item
    body. *)
Theorem mergeSpans_idempotent : forall pg, mergeSpans (mergeSpans pg) = mergeSpans pg.
Proof.
  intros [name sec date sections extra]. unfold mergeSpans. cbn.
  f_equal. rewrite map_map. apply map_ext. intros [n cs]. cbn.
  rewrite mergeSeq_idem. reflexivity.
Qed.
(** ** Further properties of the tokenizer [nextToken] *)

Lemma append_nil_str : forall s, (s ++ "")%string = s.
Proof. induction s as [|c s IH]; [reflexivity | cbn; rewrite IH; reflexivity]. Qed.

Lemma plainBytes_loop : forall p input i q token more,
  plainBytes q p = true ->
  nextTokenLoop input q token (decode i p ++ more) = nextTokenLoop input q (token ++ p) more.
Proof.
  induction p as [|b p1 IH]; intros input i q token more Hp.
  - cbn. rewrite append_nil_str. reflexivity.
  - cbn [plainBytes] in Hp.
    apply andb_prop in Hp as [Hp Hrest]. apply andb_prop in Hp as [Hp Hsp].
    apply andb_prop in Hp as [Hp Hdq]. apply andb_prop in Hp as [Hlow Hbs].
    apply negb_true_iff in Hbs, Hdq.
    assert (Hd : decode i (String b p1) = (i, String b EmptyString) :: decode (S i) p1).
    { cbn [decode]. rewrite Hlow. reflexivity. }
    rewrite Hd. cbn [List.app nextTokenLoop]. unfold dq, chr. rewrite !streq1, Hbs, Hdq.
    destruct q; cbn [negb andb orb] in *.
    + rewrite andb_false_r. rewrite IH by exact Hrest. rewrite append_assoc_str. reflexivity.
    + apply negb_true_iff in Hsp. rewrite Hsp.
      rewrite IH by exact Hrest. rewrite append_assoc_str. reflexivity.
Qed.

Lemma sliceFrom_after : forall a b n, n = String.length a -> sliceFrom (a ++ b) n = Ok b.
Proof. intros a b n ->. apply sliceFrom_app. Qed.

(** X1: a word of plain bytes followed by a space is returned whole as
    the token, and the remainder is what follows that space. *)
Theorem nextToken_word : forall w r,
  plainBytes false w = true -> nextToken (w ++ " " ++ r) = Ok (w, r).
Proof.
  intros w r Hw.
  change (" " ++ r)%string with (String " " r).
  rewrite nextToken_app_nonempty.
  rewrite decode_app_ascii by (apply Nat.ltb_lt; reflexivity).
  rewrite plainBytes_loop by exact Hw.
  assert (Hd : decode (0 + String.length w) (String " " r)
               = (String.length w, " ") :: decode (S (String.length w)) r) by reflexivity.
  rewrite Hd. cbn [nextTokenLoop]. unfold dq, chr.
  change (String " " r) with (String " " EmptyString ++ r)%string.
  rewrite <- append_assoc_str.
  rewrite (sliceFrom_after (w ++ String " " EmptyString) r (S (String.length w))) by (rewrite length_append_str; cbn; lia).
  reflexivity.
Qed.

Lemma nextToken_word_witness :
  plainBytes false "ab" = true /\ nextToken ("ab" ++ " " ++ "c") = Ok ("ab", "c").
Proof. split; [reflexivity | apply nextToken_word; reflexivity]. Defined.

Lemma loop_dq_open : forall input k token more,
  nextTokenLoop input false token ((k, dq) :: more) = nextTokenLoop input true token more.
Proof. reflexivity. Qed.

Lemma loop_dq_close : forall input k token more,
  nextTokenLoop input true token ((k, dq) :: more) = nextTokenLoop input false token more.
Proof. reflexivity. Qed.

Lemma loop_space : forall input k token more,
  nextTokenLoop input false token ((k, " ") :: more) = (rest <- sliceFrom input (S k) ;; Ok (token, rest)).
Proof. reflexivity. Qed.

(** X2: a double-quoted word of plain bytes (spaces allowed inside)
    followed by a space is returned without its quotes. *)
Theorem nextToken_quoted : forall w r,
  plainBytes true w = true -> nextToken (dq ++ w ++ dq ++ " " ++ r) = Ok (w, r).
Proof.
  intros w r Hw.
  change (dq ++ " " ++ r)%string with (String (ascii_of_nat 34) (String " " r)).
  change (dq ++ w ++ String (ascii_of_nat 34) (String " " r))%string
    with (String (ascii_of_nat 34) (w ++ String (ascii_of_nat 34) (String " " r))).
  rewrite nextToken_cons.
  assert (Hd0 : forall x, decode 0 (String (ascii_of_nat 34) x) = (0, dq) :: decode 1 x)
    by reflexivity.
  rewrite Hd0, decode_app_ascii by (apply Nat.ltb_lt; reflexivity).
  rewrite loop_dq_open, plainBytes_loop by exact Hw.
  assert (Hd : decode (1 + String.length w) (String (ascii_of_nat 34) (String " " r))
               = (1 + String.length w, dq)
                   :: (S (1 + String.length w), " ") :: decode (S (S (1 + String.length w))) r)
    by reflexivity.
  rewrite Hd, loop_dq_close, loop_space.
  replace (String (ascii_of_nat 34) (w ++ String (ascii_of_nat 34) (String " " r)))
    with ((String (ascii_of_nat 34) w ++ String (ascii_of_nat 34) (String " " EmptyString)) ++ r)%string
    by (cbn; rewrite append_assoc_str; reflexivity).
  rewrite sliceFrom_after by (rewrite length_append_str; cbn; lia).
  reflexivity.
Qed.

Lemma nextToken_quoted_witness :
  plainBytes true "a b" = true /\ nextToken (dq ++ "a b" ++ dq ++ " " ++ "c") = Ok ("a b", "c").
Proof. split; [reflexivity | apply nextToken_quoted; reflexivity]. Defined.

Lemma sliceTo_prefix : forall a b n, n = String.length a -> sliceTo (a ++ b) n = Ok a.
Proof.
  intros a b n ->. unfold sliceTo. rewrite length_append_str.
  replace (String.length a <=? String.length a + String.length b)%nat with true
    by (symmetry; apply Nat.leb_le; lia).
  f_equal. induction a as [|x a IH]; [destruct b; reflexivity | cbn; rewrite IH; reflexivity].
Qed.

(** X3: input starting with a font escape [\f] and one byte returns
    those three bytes as the token and the rest of the input. *)
Theorem nextToken_font_escape_first : forall c r,
  nextToken ("\f" ++ String c r) = Ok (("\f" ++ String c "")%string, r).
Proof.
  intros c r. cbn [append]. rewrite nextToken_cons.
  assert (Hd : forall x, decode 0 (String "\" x) = (0, "\") :: decode 1 x) by reflexivity.
  rewrite Hd. cbn [nextTokenLoop String.eqb Ascii.eqb Bool.eqb andb].
  cbn [goIndex get bind Ascii.eqb Bool.eqb andb Nat.eqb negb].
  change (String "\" (String "f" (String c r))) with ("\f" ++ String c "" ++ r)%string.
  rewrite <- append_assoc_str.
  rewrite sliceTo_prefix, sliceFrom_after by reflexivity.
  reflexivity.
Qed.

(** X4: a font escape after a non-empty plain word ends the token; the
    escape is left at the start of the remainder. *)
Theorem nextToken_font_escape_ends_token : forall w r,
  w <> "" -> plainBytes false w = true -> nextToken (w ++ "\f" ++ r) = Ok (w, ("\f" ++ r)%string).
Proof.
  intros w r Hne Hw.
  change ("\f" ++ r)%string with (String "\" (String "f" r)).
  rewrite nextToken_app_nonempty.
  rewrite decode_app_ascii by (apply Nat.ltb_lt; reflexivity).
  rewrite plainBytes_loop by exact Hw.
  assert (Hd : decode (0 + String.length w) (String "\" (String "f" r))
               = (String.length w, "\") :: decode (S (String.length w)) (String "f" r)) by reflexivity.
  rewrite Hd. cbn [nextTokenLoop]. rewrite streq1, Ascii.eqb_refl.
  unfold goIndex.
  pose proof (get_app_len w (String "\" (String "f" r)) 1) as Hg.
  rewrite Nat.add_1_r in Hg. rewrite Hg. cbn [get bind]. rewrite Ascii.eqb_refl.
  replace (String.length w =? 0)%nat with false
    by (destruct w; [contradiction | reflexivity]).
  rewrite sliceFrom_app. cbn [append]. reflexivity.
Qed.

Lemma nextToken_font_escape_ends_token_witness :
  "ab" <> "" /\ plainBytes false "ab" = true /\
  nextToken ("ab" ++ "\f" ++ "Bc") = Ok ("ab", ("\f" ++ "Bc")%string).
Proof.
  split; [discriminate | split; [reflexivity|]].
  apply nextToken_font_escape_ends_token; [discriminate | reflexivity].
Defined.

(** X5: a backslash not followed by [f] is dropped from the token. *)
Theorem nextToken_backslash_dropped : forall w1 w2 r,
  plainBytes false w1 = true -> plainBytes false w2 = true ->
  (forall x, w2 <> String "f" x) ->
  nextToken (w1 ++ "\" ++ w2 ++ " " ++ r) = Ok ((w1 ++ w2)%string, r).
Proof.
  intros w1 w2 r H1 H2 Hf.
  change ("\" ++ w2 ++ " " ++ r)%string with (String "\" (w2 ++ String " " r)).
  rewrite nextToken_app_nonempty.
  rewrite decode_app_ascii by (apply Nat.ltb_lt; reflexivity).
  rewrite plainBytes_loop by exact H1.
  assert (Hd : decode (0 + String.length w1) (String "\" (w2 ++ String " " r))
               = (String.length w1, "\") :: decode (S (String.length w1)) (w2 ++ String " " r))
    by reflexivity.
  rewrite Hd. cbn [nextTokenLoop]. rewrite streq1, Ascii.eqb_refl.
  unfold goIndex.
  pose proof (get_app_len w1 (String "\" (w2 ++ String " " r)) 1) as Hg.
  rewrite Nat.add_1_r in Hg. rewrite Hg.
  assert (Hn : exists b, get 1 (String "\" (w2 ++ String " " r)) = Some b /\ (b =? "f")%char = false).
  { destruct w2 as [|b w2'].
    - exists " "%char. split; reflexivity.
    - exists b. split; [reflexivity|].
      destruct (Ascii.eqb_spec b "f") as [->|]; [|reflexivity].
      exfalso. exact (Hf w2' eq_refl). }
  destruct Hn as [b [-> Hb]]. cbn [bind]. rewrite Hb.
  rewrite decode_app_ascii by (apply Nat.ltb_lt; reflexivity).
  rewrite plainBytes_loop by exact H2.
  assert (Hd2 : decode (S (String.length w1) + String.length w2) (String " " r)
               = (S (String.length w1) + String.length w2, " ")
                   :: decode (S (S (String.length w1) + String.length w2)) r) by reflexivity.
  rewrite Hd2, loop_space. cbn [append].
  replace (w1 ++ String "\" (w2 ++ String " " r))%string
    with ((w1 ++ String "\" (w2 ++ " ")) ++ r)%string
    by (rewrite append_assoc_str; cbn [append]; rewrite append_assoc_str; reflexivity).
  rewrite sliceFrom_after by (rewrite !length_append_str; cbn; rewrite length_append_str; cbn; lia).
  reflexivity.
Qed.

Lemma nextToken_backslash_dropped_witness :
  plainBytes false "a" = true /\ plainBytes false "b" = true /\ (forall x, "b" <> String "f" x) /\
  nextToken ("a" ++ "\" ++ "b" ++ " " ++ "c") = Ok (("a" ++ "b")%string, "c").
Proof.
  split; [reflexivity | split; [reflexivity | split; [intros x; discriminate|]]].
  apply nextToken_backslash_dropped; [reflexivity | reflexivity | intros x; discriminate].
Defined.

(** ** Further properties of the macro interpreter [parseLine] *)

Lemma runLoop_continue : forall f p st p' st',
  (forall rec, lineStep rec p st = Ok (Continue p' st')) -> runLoop (S f) p st = runLoop f p' st'.
Proof. intros f p st p' st' H. cbn [runLoop]. rewrite H. reflexivity. Qed.

Lemma runLoop_break : forall f p st p' spans,
  (forall rec, lineStep rec p st = Ok (Break p' spans)) -> runLoop (S f) p st = Ok (p', spans).
Proof. intros f p st p' spans H. cbn [runLoop]. rewrite H. reflexivity. Qed.

Lemma lineStep_font : forall rec p st f rest,
  nextToken (line st) = Ok (fontEscape f, rest) ->
  lineStep rec p st = Ok (Continue (mkParser (currentFont p) f) (setLine st rest)).
Proof. intros rec p st f rest H. unfold lineStep. rewrite H. destruct f; reflexivity. Qed.

Lemma lineStep_restore : forall rec p st rest,
  nextToken (line st) = Ok ("\fP", rest) ->
  lineStep rec p st = Ok (Continue (mkParser (lastFont p) (lastFont p)) (setLine st rest)).
Proof. intros rec p st rest H. unfold lineStep. rewrite H. reflexivity. Qed.

Lemma lineStep_end : forall rec p st,
  nextToken (line st) = Ok ("", "") -> lineStep rec p st = Ok (Break p (res st)).
Proof. intros rec p st H. unfold lineStep. rewrite H. reflexivity. Qed.

Lemma lineStep_word : forall rec p st w rest,
  nextToken (line st) = Ok (w, rest) ->
  w <> "" -> sliceContains macroCases w = false -> isSeparator w = false ->
  repeatMacro st = false ->
  lineStep rec p st =
    Ok (Continue p (mkLineState rest (res st ++ [textSpan (fontTag (currentFont p)) w false])
                     (lastMacro st) (repeatMacro st))).
Proof.
  intros rec p st w rest H Hne Hmc Hsep Hrep. unfold lineStep. rewrite H. cbn [bind].
  unfold sliceContains, macroCases in Hmc. cbn [existsb] in Hmc.
  repeat match type of Hmc with
         | (?a || ?b) = false => apply orb_false_elim in Hmc; destruct Hmc as [? Hmc]
         end.
  assert (He : (w =? "") = false) by (apply String.eqb_neq; exact Hne).
  repeat match goal with
         | E : (w =? ?x) = false |- _ => rewrite E; clear E
         end.
  rewrite Hsep, Hrep. reflexivity.
Qed.

(** X6: a plain word between a font escape and [\fP] becomes one text
    span in that font, and the parser ends with the font it started with
    as both its current and its last font. *)
Theorem parseLine_font_pair : forall p f w,
  w <> "" -> plainBytes false w = true ->
  sliceContains macroCases w = false -> isSeparator w = false ->
  parseLine p (fontEscape f ++ w ++ "\fP")
    = Ok (mkParser (currentFont p) (currentFont p), [textSpan (fontTag f) w false]).
Proof.
  intros p f w Hne Hw Hmc Hsep.
  assert (H1 : nextToken (fontEscape f ++ w ++ "\fP") = Ok (fontEscape f, (w ++ "\fP")%string)).
  { destruct f; apply nextToken_font_escape_first. }
  assert (H2 : nextToken (w ++ "\fP") = Ok (w, "\fP")).
  { apply nextToken_font_escape_ends_token; assumption. }
  unfold parseLine.
  replace (fontEscape f ++ w ++ "\fP" =? "") with false by (destruct f; reflexivity).
  unfold lineFuel.
  remember (String.length (fontEscape f ++ w ++ "\fP")) as n eqn:En.
  replace (32 * n + 32)%nat with (S (S (S (S (32 * n + 28)))))%nat by lia.
  erewrite runLoop_continue by (intros rec; apply lineStep_font; exact H1).
  erewrite runLoop_continue by (intros rec; apply lineStep_word; [exact H2 | first [assumption | reflexivity] ..]).
  erewrite runLoop_continue by (intros rec; apply lineStep_restore; reflexivity).
  erewrite runLoop_break by (intros rec; apply lineStep_end; reflexivity).
  reflexivity.
Qed.

Lemma parseLine_font_pair_witness :
  "ab" <> "" /\ plainBytes false "ab" = true /\ sliceContains macroCases "ab" = false /\
  isSeparator "ab" = false /\
  parseLine p0 (fontEscape fontBold ++ "ab" ++ "\fP")
    = Ok (mkParser (currentFont p0) (currentFont p0), [textSpan (fontTag fontBold) "ab" false]).
Proof.
  split; [discriminate|]. split; [reflexivity|]. split; [reflexivity|]. split; [reflexivity|].
  apply parseLine_font_pair; [discriminate | reflexivity | reflexivity | reflexivity].
Defined.

Lemma plainWord_spec : forall w, plainWord w = true ->
  w <> "" /\ plainBytes false w = true /\ sliceContains macroCases w = false /\ isSeparator w = false.
Proof.
  intros w H. unfold plainWord in H.
  apply andb_prop in H as [H H4]. apply andb_prop in H as [H H3]. apply andb_prop in H as [H1 H2].
  apply negb_true_iff in H1, H3, H4. apply String.eqb_neq in H1. auto.
Qed.

Lemma nextToken_last_word : forall w, plainBytes false w = true -> nextToken w = Ok (w, "").
Proof.
  intros [|c r] Hw; [reflexivity|].
  rewrite nextToken_cons. rewrite <- (app_nil_r (decode 0 (String c r))).
  rewrite plainBytes_loop by exact Hw. reflexivity.
Qed.

Lemma concat_words_length : forall ws, forallb plainWord ws = true ->
  (length ws <= String.length (String.concat " " ws))%nat.
Proof.
  induction ws as [|w ws IH]; intros H; [cbn; lia|].
  cbn [forallb] in H. apply andb_prop in H as [Hw Hws].
  destruct (plainWord_spec w Hw) as (Hne & _).
  assert (Hl : (1 <= String.length w)%nat) by (destruct w; [contradiction | cbn; lia]).
  destruct ws as [|w2 ws'].
  - cbn. lia.
  - change (String.concat " " (w :: w2 :: ws')) with (w ++ " " ++ String.concat " " (w2 :: ws'))%string.
    rewrite !length_append_str. specialize (IH Hws). cbn [length String.length] in *. lia.
Qed.

Lemma runLoop_words : forall p ws fuel acc lm,
  ws <> [] -> forallb plainWord ws = true -> (length ws < fuel)%nat ->
  runLoop fuel p (mkLineState (String.concat " " ws) acc lm false)
    = Ok (p, acc ++ map (fun w => textSpan (fontTag (currentFont p)) w false) ws).
Proof.
  intros p. induction ws as [|w ws IH]; intros fuel acc lm Hne Hall Hfuel; [contradiction|].
  cbn [forallb] in Hall. apply andb_prop in Hall as [Hw Hws].
  destruct (plainWord_spec w Hw) as (Hwne & Hwp & Hwm & Hws').
  destruct fuel as [|fuel]; [cbn in Hfuel; lia|].
  destruct ws as [|w2 ws'].
  - destruct fuel as [|fuel]; [cbn in Hfuel; lia|].
    erewrite runLoop_continue
      by (intros rec; apply lineStep_word; [apply nextToken_last_word; exact Hwp | first [assumption | reflexivity] ..]).
    erewrite runLoop_break by (intros rec; apply lineStep_end; reflexivity).
    reflexivity.
  - erewrite runLoop_continue
      by (intros rec; apply lineStep_word; [apply nextToken_word; exact Hwp | first [assumption | reflexivity] ..]).
    cbn [res lastMacro repeatMacro].
    rewrite IH by (first [discriminate | exact Hws | cbn [length] in *; lia]).
    rewrite <- app_assoc. reflexivity.
Qed.

(** X7: a line of plain words separated by single spaces gives one text
    span per word, in the current font, and leaves the parser unchanged. *)
Theorem parseLine_plain_words : forall p ws,
  forallb plainWord ws = true ->
  parseLine p (String.concat " " ws)
    = Ok (p, map (fun w => textSpan (fontTag (currentFont p)) w false) ws).
Proof.
  intros p ws Hall. destruct ws as [|w ws']; [reflexivity|].
  pose proof (concat_words_length _ Hall) as Hlen.
  assert (Hne : (String.concat " " (w :: ws') =? "") = false).
  { apply String.eqb_neq. intros E. rewrite E in Hlen. cbn in Hlen. lia. }
  unfold parseLine. rewrite Hne.
  apply runLoop_words; [discriminate | exact Hall | unfold lineFuel; lia].
Qed.

Lemma parseLine_plain_words_witness :
  forallb plainWord ["a"; "b"] = true /\
  parseLine p0 (String.concat " " ["a"; "b"])
    = Ok (p0, map (fun w => textSpan (fontTag (currentFont p0)) w false) ["a"; "b"]).
Proof. split; [reflexivity | apply parseLine_plain_words; reflexivity]. Defined.


Lemma lineStep_alt : forall rec p st name other tag rest,
  In (name, other, tag) altTable ->
  nextToken (line st) = Ok (name, rest) ->
  lineStep rec p st = altMacro p st rest name other tag.
Proof.
  intros rec p st name other tag rest Hin H. unfold lineStep. rewrite H.
  cbn in Hin.
  destruct Hin as [E|[E|[E|[E|[]]]]]; injection E as <- <- <-; reflexivity.
Qed.

Lemma alt_name_plain : forall name other tag,
  In (name, other, tag) altTable -> plainBytes false name = true.
Proof.
  intros name other tag Hin. cbn in Hin.
  destruct Hin as [E|[E|[E|[E|[]]]]]; injection E as <- <- <-; reflexivity.
Qed.

Lemma runLoop_alternate : forall p ws fuel name other tag tag' acc lm rep,
  In (name, other, tag) altTable -> In (other, name, tag') altTable ->
  forallb plainWord ws = true -> (length ws + 2 < fuel)%nat ->
  runLoop fuel p (mkLineState (name ++ " " ++ String.concat " " ws) acc lm rep)
    = Ok (p, acc ++ alternate tag tag' ws).
Proof.
  intros p ws. induction ws as [|w ws IH];
    intros fuel name other tag tag' acc lm rep Hin Hin' Hall Hfuel;
    (destruct fuel as [|[|[|fuel]]]; [cbn in Hfuel; lia .. |]).
  - erewrite runLoop_continue.
    2: { intros rec. erewrite lineStep_alt; [| exact Hin | cbn [line];
           apply nextToken_word; exact (alt_name_plain _ _ _ Hin)].
         reflexivity. }
    erewrite runLoop_break by (intros rec; apply lineStep_end; reflexivity).
    cbn [res]. rewrite app_nil_r. reflexivity.
  - cbn [forallb] in Hall. apply andb_prop in Hall as [Hw Hws].
    destruct (plainWord_spec w Hw) as (Hwne & Hwp & _).
    assert (Hrest : nextToken (String.concat " " (w :: ws)) = Ok (w, String.concat " " ws)).
    { destruct ws as [|w2 ws'].
      - apply nextToken_last_word. exact Hwp.
      - apply nextToken_word. exact Hwp. }
    erewrite runLoop_continue.
    2: { intros rec. erewrite lineStep_alt; [| exact Hin | cbn [line];
           apply nextToken_word; exact (alt_name_plain _ _ _ Hin)].
         unfold altMacro. rewrite Hrest. cbn [bind].
         replace (w =? "") with false by (symmetry; apply String.eqb_neq; exact Hwne).
         reflexivity. }
    cbn [res]. rewrite (IH (S (S fuel)) other name tag' tag) by (first [assumption | cbn [length] in Hfuel; lia]).
    rewrite <- app_assoc. reflexivity.
Qed.

(** X8: [BR], [RB], [RI] and [IR] followed by plain words give one text
    span per word, the tags alternating between the two fonts the macro
    names, starting with the first. *)
Theorem parseLine_alternating : forall p name other tag tag' ws,
  In (name, other, tag) altTable -> In (other, name, tag') altTable ->
  forallb plainWord ws = true ->
  parseLine p (name ++ " " ++ String.concat " " ws) = Ok (p, alternate tag tag' ws).
Proof.
  intros p name other tag tag' ws Hin Hin' Hall.
  unfold parseLine.
  replace (name ++ " " ++ String.concat " " ws =? "") with false
    by (cbn in Hin; destruct Hin as [E|[E|[E|[E|[]]]]]; injection E as <- <- <-; reflexivity).
  unfold startLine. rewrite <- (app_nil_l (alternate tag tag' ws)).
  apply (runLoop_alternate p ws _ name other tag tag'); try assumption.
  pose proof (concat_words_length _ Hall). unfold lineFuel. rewrite !length_append_str.
  cbn [String.length]. lia.
Qed.

Lemma parseLine_alternating_witness :
  In ("BR", "RB", tagBold) altTable /\ In ("RB", "BR", tagPlain) altTable /\
  forallb plainWord ["a"; "b"] = true /\
  parseLine p0 ("BR" ++ " " ++ String.concat " " ["a"; "b"]) = Ok (p0, alternate tagBold tagPlain ["a"; "b"]).
Proof.
  split; [now left|]. split; [right; now left|]. split; [reflexivity|].
  apply (parseLine_alternating p0 "BR" "RB"); [now left | right; now left | reflexivity].
Defined.

Lemma lineStep_deco : forall rec p st name d rest,
  In (name, d) decoTable ->
  nextToken (line st) = Ok (name, rest) ->
  lineStep rec p st = decoMacro rec p st rest d.
Proof.
  intros rec p st name d rest Hin H. unfold lineStep. rewrite H.
  cbn in Hin. destruct Hin as [E|[E|[E|[E|[E|[]]]]]]; injection E as <- <-; reflexivity.
Qed.

(** X9: [Ql], [Pq], [Sq], [Dq] and [Op] followed by plain words give a
    single decorated span of the matching kind, whose children are the
    words as text spans in the current font. *)
Theorem parseLine_enclosure : forall p name d ws,
  In (name, d) decoTable -> forallb plainWord ws = true ->
  parseLine p (name ++ " " ++ String.concat " " ws)
    = Ok (p, [decoratedSpan d (map (fun w => textSpan (fontTag (currentFont p)) w false) ws)]).
Proof.
  intros p name d ws Hin Hall.
  assert (Hname : plainBytes false name = true /\ (name ++ " " ++ String.concat " " ws =? "") = false).
  { cbn in Hin. destruct Hin as [E|[E|[E|[E|[E|[]]]]]]; injection E as <- <-; split; reflexivity. }
  destruct Hname as [Hnp Hne].
  pose proof (concat_words_length _ Hall) as Hlen.
  unfold parseLine. rewrite Hne. unfold lineFuel.
  remember (String.length (name ++ " " ++ String.concat " " ws)) as n eqn:En.
  assert (Hn : (String.length (String.concat " " ws) < n)%nat)
    by (rewrite En, !length_append_str; cbn [String.length]; lia).
  replace (32 * n + 32)%nat with (S (32 * n + 31))%nat by lia.
  cbn [runLoop]. erewrite lineStep_deco; [| exact Hin | apply nextToken_word; exact Hnp].
  unfold decoMacro. cbn [res startLine].
  destruct ws as [|w ws'].
  - reflexivity.
  - replace (String.concat " " (w :: ws') =? "") with false.
    2: { symmetry. apply String.eqb_neq. intros E. rewrite E in Hlen. cbn in Hlen. lia. }
    unfold startLine. rewrite <- (app_nil_l (map _ (w :: ws'))).
    rewrite runLoop_words by (first [discriminate | exact Hall | lia]).
    reflexivity.
Qed.

Lemma parseLine_enclosure_witness :
  In ("Op", decorationOptional) decoTable /\ forallb plainWord ["a"; "b"] = true /\
  parseLine p0 ("Op" ++ " " ++ String.concat " " ["a"; "b"])
    = Ok (p0, [decoratedSpan decorationOptional
                 (map (fun w => textSpan (fontTag (currentFont p0)) w false) ["a"; "b"])]).
Proof.
  split; [cbn; auto 10|]. split; [reflexivity|].
  apply parseLine_enclosure; [cbn; auto 10 | reflexivity].
Defined.

(** ** Further properties of the document builder [parseMdoc] *)

Lemma sameFrame_refl : forall b, sameFrame b b.
Proof. intros b. repeat split. Qed.

Lemma sameFrame_trans : forall a b c, sameFrame a b -> sameFrame b c -> sameFrame a c.
Proof.
  intros a b c (H1 & H2 & H3) (H4 & H5 & H6). unfold sameFrame.
  rewrite H4, H5, H6. auto.
Qed.

Lemma addSpans_frame : forall b spans b', addSpans b spans = Ok b' -> sameFrame b b'.
Proof.
  intros [pg sec ls sv p] spans b' H. unfold addSpans in H. cbn [bLists bSection] in H.
  destruct ls as [|top below].
  - destruct sec as [s|]; [|discriminate]. injection H as <-. repeat split.
  - destruct (rev (listItems top)) as [|it before]; [discriminate|].
    injection H as <-. repeat split.
Qed.

Lemma parseAndAdd_frame : forall b s b', parseAndAdd b s = Ok b' -> sameFrame b b'.
Proof.
  intros b s b' H. unfold parseAndAdd in H.
  destruct (parseLine (bParser b) s) as [[p' spans]| |]; cbn [bind] in H; try discriminate.
  apply addSpans_frame in H. destruct b; exact H.
Qed.

Ltac inv_result H :=
  repeat match type of H with
  | bind ?m _ = _ => let E := fresh "E" in destruct m eqn:E; cbn [bind] in H; try discriminate H
  | match ?m with _ => _ end = _ => let E := fresh "E" in destruct m eqn:E; try discriminate H
  | (if ?c then _ else _) = _ => let E := fresh "E" in destruct c eqn:E; try discriminate H
  end.

Lemma processLine_frame : forall sh b l b',
  classify l <> KSh -> classify l <> KBl -> classify l <> KEl ->
  processLine sh b l = Ok b' -> sameFrame b b'.
Proof.
  intros sh b l b' Hsh Hbl Hel H. unfold processLine in H.
  destruct b as [pg0 sec0 ls0 sv0 prs0].
  destruct (classify l) eqn:Hk; try congruence; inv_result H;
    repeat match goal with E : context [if ?c then _ else _] |- _ => destruct c end;
    repeat match goal with
    | E : addSpans _ _ = Ok _ |- _ => apply addSpans_frame in E
    | E : parseAndAdd _ _ = Ok _ |- _ => apply parseAndAdd_frame in E
    | E : Ok _ = Ok _ |- _ => injection E as E
    end; subst;
    unfold sameFrame in *; cbn in *; subst; cbn in *; try (intuition congruence).
Qed.

Lemma sameFrame_names : forall b b', sameFrame b b' -> builderNames b' = builderNames b.
Proof.
  intros b b' (H1 & H2 & _). unfold builderNames. rewrite H1.
  destruct (bSection b) as [s|], (bSection b') as [s'|]; cbn in H2; try discriminate;
    [injection H2 as ->|]; reflexivity.
Qed.

Lemma processLine_names : forall sh b l b',
  processLine sh b l = Ok b' ->
  builderNames b' = builderNames b ++ (if isShLine l then [shName l] else []).
Proof.
  intros sh b l b' H. unfold isShLine.
  destruct (classify l) eqn:Hk;
    try (rewrite app_nil_r; apply sameFrame_names;
         apply (processLine_frame sh b l b'); [rewrite Hk; discriminate ..|exact H]).
  - unfold processLine in H. rewrite Hk in H. unfold shName.
    destruct (sliceFrom l 4) as [name| |]; cbn [bind] in H; try discriminate.
    injection H as <-. destruct b as [pg0 [s|] ls0 sv0 prs0]; unfold builderNames; cbn.
    + rewrite map_app. cbn. rewrite <- app_assoc. reflexivity.
    + rewrite app_nil_r. reflexivity.
  - unfold processLine in H. rewrite Hk in H. inv_result H.
    injection H as <-. rewrite app_nil_r. destruct b; reflexivity.
  - unfold processLine in H. rewrite Hk in H. inv_result H.
    apply addSpans_frame, sameFrame_names in H. rewrite H, app_nil_r. destruct b; reflexivity.
Qed.

Lemma processLine_depth : forall sh b l b',
  processLine sh b l = Ok b' ->
  (length (bLists b') + (if isElLine l then 1 else 0) =
   length (bLists b) + (if isBlLine l then 1 else 0))%nat.
Proof.
  intros sh b l b' H. unfold isElLine, isBlLine.
  destruct (classify l) eqn:Hk;
    try (destruct (processLine_frame sh b l b') as (_ & _ & E);
         [rewrite Hk; discriminate ..|exact H|]; rewrite E; simpl; lia).
  - unfold processLine in H. rewrite Hk in H. inv_result H.
    injection H as <-. destruct b as [pg0 [s|] ls0 sv0 prs0]; cbn; lia.
  - unfold processLine in H. rewrite Hk in H. inv_result H.
    injection H as <-. destruct b; cbn. lia.
  - unfold processLine in H. rewrite Hk in H. inv_result H.
    apply addSpans_frame in H. destruct H as (_ & _ & H). rewrite H.
    destruct b; cbn in *. subst. cbn. lia.
Qed.

Lemma processLines_names : forall sh ls b b',
  processLines sh b ls = Ok b' ->
  builderNames b' = builderNames b ++ map shName (filter isShLine ls).
Proof.
  intros sh. induction ls as [|l ls IH]; intros b b' H.
  - injection H as <-. rewrite app_nil_r. reflexivity.
  - cbn [processLines] in H.
    destruct (processLine sh b l) as [b1| |] eqn:E; cbn [bind] in H; try discriminate.
    rewrite (IH _ _ H), (processLine_names _ _ _ _ E). cbn [filter].
    destruct (isShLine l); cbn [map]; rewrite <- app_assoc; reflexivity.
Qed.

(** X10: when [parseMdoc] returns a page, its sections are named, in
    order, after the [.Sh] lines of the input (quotes trimmed): one
    section per [.Sh] line, and no other section. *)
Theorem parseMdoc_section_names : forall sh doc pg,
  parseMdoc sh doc = Ok pg ->
  map secName (pageSections pg) = map shName (filter isShLine (splitLines doc)).
Proof.
  intros sh doc pg H. unfold parseMdoc, parseMdocFrom in H.
  destruct (processLines sh builder0 (splitLines doc)) as [b| |] eqn:E; cbn [bind] in H;
    try discriminate.
  apply processLines_names in E. unfold finish in H.
  destruct (bSection b) as [s|] eqn:Es; [|discriminate]. injection H as <-.
  unfold builderNames in E. rewrite Es in E. cbn in E |- *.
  rewrite map_app. exact E.
Qed.

Lemma parseMdoc_section_names_witness :
  exists pg, parseMdoc simpleSplit (".Sh A" ++ nl ++ ".Sh B") = Ok pg /\
    map secName (pageSections pg) = map shName (filter isShLine (splitLines (".Sh A" ++ nl ++ ".Sh B"))).
Proof.
  eexists. split; [reflexivity|].
  apply (parseMdoc_section_names simpleSplit). reflexivity.
Defined.

Lemma processLines_depth : forall sh ls b b',
  processLines sh b ls = Ok b' ->
  (length (bLists b') + length (filter isElLine ls) =
   length (bLists b) + length (filter isBlLine ls))%nat.
Proof.
  intros sh. induction ls as [|l ls IH]; intros b b' H.
  - injection H as <-. reflexivity.
  - cbn [processLines] in H.
    destruct (processLine sh b l) as [b1| |] eqn:E; cbn [bind] in H; try discriminate.
    pose proof (IH _ _ H) as H1. pose proof (processLine_depth _ _ _ _ E) as H2.
    cbn [filter]. destruct (isElLine l), (isBlLine l); cbn [length] in *; lia.
Qed.

(** X11: when [parseMdoc] returns a page, no prefix of the input has
    more [.El] lines than [.Bl] lines. *)
Theorem parseMdoc_lists_balanced : forall sh doc pg pre post,
  parseMdoc sh doc = Ok pg -> splitLines doc = pre ++ post ->
  (length (filter isElLine pre) <= length (filter isBlLine pre))%nat.
Proof.
  intros sh doc pg pre post H Hs. unfold parseMdoc, parseMdocFrom in H.
  rewrite Hs, processLines_app in H.
  destruct (processLines sh builder0 pre) as [b| |] eqn:E; cbn [bind] in H; try discriminate.
  apply processLines_depth in E. cbn in E. lia.
Qed.

Lemma parseMdoc_lists_balanced_witness :
  exists pg, parseMdoc simpleSplit (".Sh A" ++ nl ++ ".Bl -bullet" ++ nl ++ ".It" ++ nl ++ ".El") = Ok pg /\
    splitLines (".Sh A" ++ nl ++ ".Bl -bullet" ++ nl ++ ".It" ++ nl ++ ".El")
      = [".Sh A"; ".Bl -bullet"] ++ [".It"; ".El"] /\
    (length (filter isElLine [".Sh A"; ".Bl -bullet"]) <= length (filter isBlLine [".Sh A"; ".Bl -bullet"]))%nat.
Proof.
  eexists. split; [reflexivity|]. split; [reflexivity|].
  eapply (parseMdoc_lists_balanced simpleSplit (".Sh A" ++ nl ++ ".Bl -bullet" ++ nl ++ ".It" ++ nl ++ ".El")
           _ _ [".It"; ".El"]); reflexivity.
Defined.

Lemma findLeftmost_inv {A} : forall (m : string -> option A) (P : A -> Prop) s a,
  (forall s' a', m s' = Some a' -> P a') -> findLeftmost m s = Some a -> P a.
Proof.
  intros m P s a Hm. induction s as [|c s IH]; cbn [findLeftmost];
    destruct (m _) as [a'|] eqn:E; intros H.
  - injection H as <-. exact (Hm _ _ E).
  - discriminate.
  - injection H as <-. exact (Hm _ _ E).
  - exact (IH H).
Qed.

Lemma classify_nm_nonempty : forall l n a, classify l = KNmFull n a -> n <> "".
Proof.
  intros l n a H. unfold classify in H.
  repeat match type of H with
  | context [if ?c then _ else _] => destruct c; try discriminate H
  | context [match ?m with Some _ => _ | None => _ end] =>
      let E := fresh "E" in destruct m as [[? ?]|] eqn:E; try discriminate H
  end.
  all: match goal with
       | E : findNm _ = Some _ |- _ =>
           injection H as <- <-;
           refine (findLeftmost_inv _ (fun x => fst x <> "") _ _ _ E)
       end.
  all: intros s' [n' a'] Hs; unfold matchTwoAt in Hs.
  all: destruct (prefix ".Nm " s'); [|discriminate].
  all: destruct (takeWhile isNotSpace _ =? "") eqn:En; [discriminate|].
  all: apply String.eqb_neq in En.
  all: destruct (dropWhile isNotSpace _) as [|sp r3];
    [injection Hs as <- _; exact En|].
  all: destruct (_ && _); injection Hs as <- _; exact En.
Qed.

Lemma addSpans_savedName : forall b spans b', addSpans b spans = Ok b' -> bSavedName b' = bSavedName b.
Proof.
  intros [pg sec ls sv p] spans b' H. unfold addSpans in H. cbn [bLists bSection] in H.
  destruct ls as [|top below].
  - destruct sec as [s|]; [|discriminate]. injection H as <-. reflexivity.
  - destruct (rev (listItems top)) as [|it before]; [discriminate|].
    injection H as <-. reflexivity.
Qed.

Lemma parseAndAdd_savedName : forall b s b', parseAndAdd b s = Ok b' -> bSavedName b' = bSavedName b.
Proof.
  intros b s b' H. unfold parseAndAdd in H.
  destruct (parseLine (bParser b) s) as [[p' spans]| |]; cbn [bind] in H; try discriminate.
  apply addSpans_savedName in H. destruct b; exact H.
Qed.

Lemma processLine_savedName : forall sh b l b',
  processLine sh b l = Ok b' ->
  bSavedName b' = match classify l with
                  | KNmFull n _ => if bSavedName b =? "" then n else bSavedName b
                  | _ => bSavedName b
                  end.
Proof.
  intros sh b l b' H. unfold processLine in H.
  destruct b as [pg0 sec0 ls0 sv0 prs0].
  destruct (classify l) eqn:Hk; inv_result H;
    repeat match goal with E : context [if ?c then _ else _] |- _ => destruct c eqn:? end;
    repeat match goal with
    | E : addSpans _ _ = Ok _ |- _ => apply addSpans_savedName in E
    | E : parseAndAdd _ _ = Ok _ |- _ => apply parseAndAdd_savedName in E
    | E : Ok _ = Ok _ |- _ => injection E as E
    end; subst; cbn in *; try congruence.
  destruct sec0; reflexivity.
Qed.

Lemma processLines_savedName : forall sh ls b b',
  processLines sh b ls = Ok b' ->
  bSavedName b' = if bSavedName b =? "" then firstNm ls else bSavedName b.
Proof.
  intros sh. induction ls as [|l ls IH]; intros b b' H.
  - injection H as <-. destruct (String.eqb_spec (bSavedName b) "") as [->|]; reflexivity.
  - cbn [processLines] in H.
    destruct (processLine sh b l) as [b1| |] eqn:E; cbn [bind] in H; try discriminate.
    rewrite (IH _ _ H), (processLine_savedName _ _ _ _ E). cbn [firstNm].
    destruct (classify l) eqn:Hk;
      try (destruct (bSavedName b =? ""); reflexivity).
    pose proof (classify_nm_nonempty _ _ _ Hk) as Hn.
    apply String.eqb_neq in Hn.
    destruct (bSavedName b =? "") eqn:Hs; [rewrite Hn; reflexivity|rewrite Hs; reflexivity].
Qed.

(** X12: outside lists, a bare [.Nm] line appends to the current
    section a name reference to the name of the first [.Nm name] line
    before it (the empty string if there is none), preceded in the
    SYNOPSIS section by a line break. *)
Theorem processLine_bare_nm : forall sh pre l b s,
  processLines sh builder0 pre = Ok b -> classify l = KNmBare ->
  bLists b = [] -> bSection b = Some s ->
  processLine sh b l =
    Ok (setSection b (Some (mkSection (secName s)
          (secContents s ++ (if secName s =? "SYNOPSIS" then [textSpan tagPlain (chr 10) true] else [])
                         ++ [textSpan tagNameRef (firstNm pre) false])))).
Proof.
  intros sh pre l b s Hpre Hk Hl Hs.
  apply processLines_savedName in Hpre. cbn in Hpre.
  unfold processLine. rewrite Hk, Hs.
  destruct b as [pg0 sec0 ls0 sv0 prs0]; cbn in *; subst.
  destruct (secName s =? "SYNOPSIS"); cbn; rewrite <- ?app_assoc; reflexivity.
Qed.

Lemma processLine_bare_nm_witness :
  exists b s, processLines simpleSplit builder0 [".Sh NAME"; ".Nm ls"] = Ok b /\
    classify ".Nm" = KNmBare /\ bLists b = [] /\ bSection b = Some s /\
    processLine simpleSplit b ".Nm" =
      Ok (setSection b (Some (mkSection (secName s)
            (secContents s ++ (if secName s =? "SYNOPSIS" then [textSpan tagPlain (chr 10) true] else [])
                           ++ [textSpan tagNameRef (firstNm [".Sh NAME"; ".Nm ls"]) false])))).
Proof.
  do 2 eexists. split; [reflexivity|]. split; [reflexivity|]. split; [reflexivity|].
  split; [reflexivity|].
  apply (processLine_bare_nm simpleSplit [".Sh NAME"; ".Nm ls"]); reflexivity.
Defined.

Lemma parseMdoc_fails_at : forall sh doc pre l post b e,
  splitLines doc = pre ++ l :: post ->
  processLines sh builder0 pre = Ok b -> processLine sh b l = Err e ->
  parseMdoc sh doc = Err e.
Proof.
  intros sh doc pre l post b e Hs Hpre Hl. unfold parseMdoc, parseMdocFrom.
  rewrite Hs, processLines_app, Hpre. cbn [bind processLines]. rewrite Hl. reflexivity.
Qed.

(** X13: a [.Xr] line without a section number makes [parseMdoc] panic
    with a slice bounds error. *)
Theorem parseMdoc_xr_without_section : forall sh doc pre l post b n,
  splitLines doc = pre ++ l :: post ->
  processLines sh builder0 pre = Ok b ->
  classify l = KXr n None ->
  parseMdoc sh doc = Err SliceOutOfRange.
Proof.
  intros sh doc pre l post b n Hs Hpre Hk.
  apply (parseMdoc_fails_at sh doc pre l post b _ Hs Hpre).
  unfold processLine. rewrite Hk. reflexivity.
Qed.

Lemma parseMdoc_xr_without_section_witness :
  splitLines ".Xr ls" = [] ++ [".Xr ls"] /\ processLines simpleSplit builder0 [] = Ok builder0 /\
  classify ".Xr ls" = KXr "ls" None /\ parseMdoc simpleSplit ".Xr ls" = Err SliceOutOfRange.
Proof.
  split; [reflexivity|]. split; [reflexivity|]. split; [reflexivity|].
  apply (parseMdoc_xr_without_section simpleSplit ".Xr ls" [] ".Xr ls" [] builder0 "ls"); reflexivity.
Defined.

(** X14: a text line inside a list that has no item yet makes
    [parseMdoc] panic with an index out of range. *)
Theorem parseMdoc_text_before_item : forall sh doc pre l post b top below p' spans,
  splitLines doc = pre ++ l :: post ->
  processLines sh builder0 pre = Ok b ->
  bLists b = top :: below -> listItems top = [] ->
  classify l = KText -> parseLine (bParser b) l = Ok (p', spans) ->
  parseMdoc sh doc = Err IndexOutOfRange.
Proof.
  intros sh doc pre l post b top below p' spans Hs Hpre Hl Hi Hk Hp.
  apply (parseMdoc_fails_at sh doc pre l post b _ Hs Hpre).
  unfold processLine. rewrite Hk. unfold parseAndAdd. rewrite Hp. cbn [bind].
  unfold addSpans. destruct b; cbn in *. rewrite Hl, Hi. reflexivity.
Qed.

Lemma parseMdoc_text_before_item_witness :
  exists b top p' spans,
    splitLines (".Sh A" ++ nl ++ ".Bl -bullet" ++ nl ++ "hello") = [".Sh A"; ".Bl -bullet"] ++ ["hello"] /\
    processLines simpleSplit builder0 [".Sh A"; ".Bl -bullet"] = Ok b /\
    bLists b = [top] /\ listItems top = [] /\ classify "hello" = KText /\
    parseLine (bParser b) "hello" = Ok (p', spans) /\
    parseMdoc simpleSplit (".Sh A" ++ nl ++ ".Bl -bullet" ++ nl ++ "hello") = Err IndexOutOfRange.
Proof.
  do 4 eexists. split; [reflexivity|]. split; [reflexivity|]. split; [reflexivity|].
  split; [reflexivity|]. split; [reflexivity|]. split; [reflexivity|].
  eapply (parseMdoc_text_before_item simpleSplit _ [".Sh A"; ".Bl -bullet"] "hello" []);
    reflexivity.
Defined.

Lemma sliceFrom_ok_length : forall s k r, sliceFrom s k = Ok r -> (k <= String.length s)%nat.
Proof.
  intros s k r H. unfold sliceFrom in H.
  destruct (Nat.leb_spec k (String.length s)); [lia | discriminate].
Qed.

(** X15: [.IP tag n] panics when [n] is negative; otherwise it appends a
    text span made of a line break, [n] times two spaces and the tag. *)
Theorem processLine_ip_indent : forall sh b l s a1 rest a2 rest2 n,
  classify l = KIP -> sliceFrom l 4 = Ok s ->
  nextToken s = Ok (a1, rest) -> nextToken rest = Ok (a2, rest2) -> atoi a2 = Some n ->
  ((n < 0)%Z -> processLine sh b l = Err (PanicValue "strings: negative Repeat count")) /\
  ((0 <= n)%Z -> (2 * n <= 2 ^ 63 - 1)%Z ->
   processLine sh b l =
     addSpans b [textSpan tagPlain (chr 10 ++ repeatString (Z.to_nat n) "  " ++ ipTag a1) false]).
Proof.
  intros sh b l s a1 rest a2 rest2 n Hk Hs H1 H2 Ha.
  assert (Hlen : (3 <? String.length l)%nat = true)
    by (apply Nat.ltb_lt; pose proof (sliceFrom_ok_length _ _ _ Hs); lia).
  assert (Hne : (a2 =? "") = false) by (destruct a2; [discriminate | reflexivity]).
  assert (Hp : processLine sh b l =
            (pad <- goRepeat2 n ;;
             addSpans b [textSpan tagPlain (chr 10 ++ pad ++ ipTag a1) false])).
  { unfold processLine. rewrite Hk, Hlen, Hs. cbn [bind]. rewrite H1. cbn [bind].
    rewrite H2. cbn [bind]. rewrite Hne. unfold atoiOrPanic. rewrite Ha. reflexivity. }
  rewrite Hp. unfold goRepeat2. split.
  - intros Hn. replace (n <? 0)%Z with true by (symmetry; apply Z.ltb_lt; exact Hn). reflexivity.
  - intros Hn Hmax.
    replace (n <? 0)%Z with false by (symmetry; apply Z.ltb_ge; exact Hn).
    replace (2 ^ 63 - 1 <? 2 * n)%Z with false by (symmetry; apply Z.ltb_ge; exact Hmax).
    reflexivity.
Qed.

Lemma processLine_ip_indent_witness :
  classify ".IP x 2" = KIP /\ sliceFrom ".IP x 2" 4 = Ok "x 2" /\
  nextToken "x 2" = Ok ("x", "2") /\ nextToken "2" = Ok ("2", "") /\ atoi "2" = Some 2%Z /\
  processLine simpleSplit builder0 ".IP x 2" =
    addSpans builder0 [textSpan tagPlain (chr 10 ++ repeatString (Z.to_nat 2) "  " ++ ipTag "x") false].
Proof.
  split; [reflexivity|]. split; [reflexivity|]. split; [reflexivity|]. split; [reflexivity|].
  split; [reflexivity|].
  apply (proj2 (processLine_ip_indent simpleSplit builder0 ".IP x 2" "x 2" "x" "2" "2" "" 2%Z
                  eq_refl eq_refl eq_refl eq_refl eq_refl)); lia.
Defined.

(** ** Further properties of the renderer (render.go) *)

Lemma tableColumnsAcc_closed : forall width cols c done,
  tableColumnsAcc width done (cols ++ [c]) =
    done ++ map (fun col => (col, headerWidth col)) cols ++
    [(c, (width - fold_left Z.add (map snd done ++ map headerWidth cols) 0 - 4)%Z)].
Proof.
  intros width cols c. induction cols as [|c1 cols IH]; intros done.
  - cbn. rewrite app_nil_r. reflexivity.
  - cbn [List.app tableColumnsAcc].
    replace (match cols ++ [c] with [] => _ | _ => headerWidth c1 end)
      with (headerWidth c1) by (destruct cols; reflexivity).
    rewrite IH, <- app_assoc, map_app. cbn. rewrite <- app_assoc. reflexivity.
Qed.

(** X16: in a column list, every column but the last is [len(col) + 3]
    wide, and the last takes the rest, so that the widths add up to the
    render width minus 4. *)
Theorem tableColumns_widths : forall width cols c,
  tableColumns width (cols ++ [c]) =
    map (fun col => (col, headerWidth col)) cols ++
    [(c, (width - fold_left Z.add (map headerWidth cols) 0%Z - 4)%Z)] /\
  fold_left Z.add (map snd (tableColumns width (cols ++ [c]))) 0%Z = (width - 4)%Z.
Proof.
  intros width cols c. unfold tableColumns. rewrite tableColumnsAcc_closed. cbn [List.app map].
  split; [reflexivity|].
  rewrite map_app, map_map. cbn [map snd fst]. rewrite fold_left_app. cbn [fold_left].
  rewrite (map_ext (fun x => snd (x, headerWidth x)) headerWidth) by reflexivity. lia.
Qed.

Lemma substring_app_l a b : substring 0 (String.length a) (a ++ b) = a.
Proof. induction a; simpl; [destruct b; reflexivity | now rewrite IHa]. Qed.

Lemma substring_app_r a b : substring (String.length a) (String.length b) (a ++ b) = b.
Proof.
  induction a; simpl; [|exact IHa].
  induction b; simpl; [reflexivity | now rewrite IHb].
Qed.

Lemma length_app_space a : String.length (a ++ " ") = S (String.length a).
Proof. induction a; simpl; auto. Qed.

Lemma trimSuffix_space a : trimSuffix (a ++ " ") " " = a.
Proof.
  unfold trimSuffix. rewrite length_app_space. simpl String.length.
  replace (S (String.length a) - 1)%nat with (String.length a) by lia.
  pose proof (substring_app_r a " ") as R. simpl String.length in R. rewrite R.
  replace (1 <=? S (String.length a))%nat with true by (symmetry; apply Nat.leb_le; lia).
  simpl. apply substring_app_l.
Qed.

Section RenderProofs.

Variable styleRender : textTag -> string -> string.
Variable flagStyleRender : string -> string.
Variable listRender : Z -> mdocList -> result string.

Lemma renderSpan_decorated_eq width d cs :
  renderSpan styleRender flagStyleRender listRender width (decoratedSpan d cs) =
  (res <- renderSpans styleRender flagStyleRender listRender width cs ;;
   '(o, c) <- decorationStyle d ;;
   Ok (o ++ trimSuffix res " " ++ c ++ " ")%string).
Proof.
  cbn [renderSpan]. f_equal.
  induction cs as [|c cs IH]; [reflexivity|].
  cbn [renderSpans]. rewrite <- IH. reflexivity.
Qed.

Lemma renderSpans_app width cs ds rc rd :
  renderSpans styleRender flagStyleRender listRender width cs = Ok rc ->
  renderSpans styleRender flagStyleRender listRender width ds = Ok rd ->
  renderSpans styleRender flagStyleRender listRender width (cs ++ ds) = Ok (rc ++ rd)%string.
Proof.
  revert rc. induction cs as [|c cs IH]; intros rc Hc Hd; cbn [renderSpans app] in *.
  - inversion Hc; subst. exact Hd.
  - destruct (renderSpan _ _ _ width c) as [r| |]; cbn in Hc; try discriminate.
    destruct (renderSpans _ _ _ width cs) as [rest| |] eqn:E; cbn in Hc; try discriminate.
    inversion Hc; subst. rewrite (IH rest eq_refl Hd). cbn. now rewrite append_assoc_str.
Qed.

(** X17: the closing delimiter of a decorated span hugs its last word: the
    space the last text span adds is trimmed, the delimiters are put
    around the children's text and one space follows. *)
Theorem renderSpan_decorated_hugs width d o c cs rcs t x :
  decorationStyle d = Ok (o, c) ->
  renderSpans styleRender flagStyleRender listRender width cs = Ok rcs ->
  allWhitespace x = false ->
  renderSpan styleRender flagStyleRender listRender width
    (decoratedSpan d (cs ++ [textSpan t x false])) =
  Ok (o ++ rcs ++ textBody styleRender t (replaceAmp x) ++ c ++ " ")%string.
Proof.
  intros Hd Hcs Hx. rewrite renderSpan_decorated_eq.
  erewrite renderSpans_app; [| exact Hcs | cbn; reflexivity].
  cbn - [trimSuffix renderText]. rewrite Hd, append_nil_str.
  unfold renderText. rewrite Hx. cbn - [trimSuffix].
  rewrite <- (append_assoc_str rcs), trimSuffix_space, append_assoc_str. reflexivity.
Qed.
End RenderProofs.

Lemma renderSpan_decorated_hugs_witness :
  decorationStyle decorationParens = Ok ("(", ")") /\
  renderSpans (fun _ s => s) (fun s => s) (fun _ _ => Ok "") 80 [textSpan tagPlain "a" false] = Ok "a " /\
  allWhitespace "b" = false /\
  renderSpan (fun _ s => s) (fun s => s) (fun _ _ => Ok "") 80
    (decoratedSpan decorationParens ([textSpan tagPlain "a" false] ++ [textSpan tagPlain "b" false])) =
  Ok ("(" ++ "a " ++ textBody (fun _ s => s) tagPlain (replaceAmp "b") ++ ")" ++ " ")%string.
Proof.
  split; [reflexivity|]. split; [reflexivity|]. split; [reflexivity|].
  apply renderSpan_decorated_hugs; reflexivity.
Defined.

Section ListPanic.

Variable spanRender : Z -> Span -> result string.
Variable tableRender : mdocList -> Z -> result string.
Variable marginLeft : Z -> string -> string.
Variable fillWidth : Z -> string -> string.
Variable visibleWidth : string -> Z.
Variable joinTop : string -> string -> string.
Variable trimSpace : string -> string.

(** X18: a [.Bl] line whose options pick the diag, hang or inset kind,
    and whose [-offset] option, if any, is followed by an argument, is
    processed without error: it pushes a list of that kind on the list
    stack.  [list.Render] panics on that list whatever the width. *)
Theorem bl_unrenderable_list sh b l s args k w :
  classify l = KBl -> sliceFrom l 4 = Ok s -> sh s = Some args ->
  blKind args = Ok (k, w) -> In k [diagList; hangList; insetList] ->
  match sliceIndex args "-offset" with None => True | Some i => (S i < length args)%nat end ->
  exists lst, processLine sh b l = Ok (setLists b (lst :: bLists b)) /\ listTyp lst = k /\
    forall width, listRenderGo spanRender tableRender marginLeft fillWidth
                    visibleWidth joinTop trimSpace lst width = Err (unknownListPanic k).
Proof.
  intros Hc Hs Hsh Hk Hin Hoff.
  assert (El : exists lst, blList args = Ok lst /\ listTyp lst = k).
  { unfold blList. rewrite Hk. cbn [bind].
    destruct (sliceIndex args "-offset") as [i|]; cbn [bind].
    - unfold listIndex. destruct (nth_error args (S i)) as [a|] eqn:Ea.
      + cbn [bind]. eexists. split; reflexivity.
      + apply nth_error_None in Ea. lia.
    - eexists. split; reflexivity. }
  destruct El as (lst & El & Ht). exists lst.
  split.
  { unfold processLine. rewrite Hc, Hs. cbn [bind]. unfold shlexOrPanic. rewrite Hsh.
    cbn [bind]. rewrite El. reflexivity. }
  split; [exact Ht|]. intros width. unfold listRenderGo, maxTagWidthOf.
  rewrite Ht. destruct Hin as [<-|[<-|[<-|[]]]]; reflexivity.
Qed.

End ListPanic.

Lemma bl_unrenderable_list_witness :
  exists lst,
    processLine simpleSplit builder0 ".Bl -diag -offset indent"
      = Ok (setLists builder0 (lst :: bLists builder0)) /\ listTyp lst = diagList /\
    listRenderGo (fun _ _ => Ok "") (fun _ _ => Ok "") (fun _ s => s) (fun _ s => s)
      (fun _ => 0%Z) String.append (fun s => s) lst 80 = Err (unknownListPanic diagList).
Proof.
  edestruct (bl_unrenderable_list (fun _ _ => Ok "") (fun _ _ => Ok "") (fun _ s => s)
    (fun _ s => s) (fun _ => 0%Z) String.append (fun s => s) simpleSplit builder0
    ".Bl -diag -offset indent" "-diag -offset indent" ["-diag"; "-offset"; "indent"] diagList 0%Z)
    as (lst & Hp & Ht & Hr);
    [reflexivity | reflexivity | reflexivity | reflexivity | left; reflexivity | cbn; lia |].
  exists lst. split; [exact Hp|]. split; [exact Ht | apply Hr].
Defined.

(** ** Inputs without a section header *)

Lemma processLines_ignored : forall sh ls b,
  (forall l, In l ls -> classify l = KComment \/ classify l = KEmpty) ->
  processLines sh b ls = Ok b.
Proof.
  intros sh. induction ls as [|l ls IH]; intros b H; [reflexivity|].
  cbn [processLines]. unfold processLine at 1.
  destruct (H l (or_introl eq_refl)) as [E|E]; rewrite E; cbn [bind];
    apply IH; intros l' Hl'; apply H; right; exact Hl'.
Qed.

(** C1 (code bug).  The final [append(page.Sections, *currentSection)]
    has no nil check, unlike the [.Sh] case: an input made only of
    ignored lines (comments, blank lines) panics on the nil section
    instead of giving a document with a section, and more generally no
    input without a section-header line gives a document at all. *)
Theorem parseMdoc_headerless_no_document :
  (forall sh doc,
     (forall l, In l (splitLines doc) -> classify l = KComment \/ classify l = KEmpty) ->
     parseMdoc sh doc = Err NilDereference) /\
  (forall sh doc pg, filter isShLine (splitLines doc) = [] -> parseMdoc sh doc <> Ok pg).
Proof.
  split.
  - intros sh doc H. unfold parseMdoc, parseMdocFrom.
    rewrite (processLines_ignored sh _ builder0 H). reflexivity.
  - intros sh doc pg Hsh H. unfold parseMdoc, parseMdocFrom in H.
    destruct (processLines sh builder0 (splitLines doc)) as [b| |] eqn:E; cbn [bind] in H;
      try discriminate.
    apply processLines_names in E. rewrite Hsh in E. cbn in E.
    unfold finish in H. destruct (bSection b) as [s|] eqn:Es; [|discriminate].
    unfold builderNames in E. rewrite Es in E.
    destruct (map secName (pageSections (bPage b))); discriminate.
Qed.

Lemma parseMdoc_headerless_no_document_witness :
  (forall l, In l (splitLines (commentStart1 ++ " a comment" ++ nl ++ "")) ->
     classify l = KComment \/ classify l = KEmpty) /\
  parseMdoc simpleSplit (commentStart1 ++ " a comment" ++ nl ++ "") = Err NilDereference /\
  filter isShLine (splitLines "plain text") = [] /\
  parseMdoc simpleSplit "plain text" <> Ok emptyPage.
Proof.
  assert (Hl : forall l, In l (splitLines (commentStart1 ++ " a comment" ++ nl ++ "")) ->
     classify l = KComment \/ classify l = KEmpty).
  { intros l Hin. cbn in Hin. destruct Hin as [<-|[<-|[]]]; [left | right]; reflexivity. }
  split; [exact Hl|]. split; [exact (proj1 parseMdoc_headerless_no_document simpleSplit _ Hl)|].
  split; [reflexivity|].
  apply (proj2 parseMdoc_headerless_no_document simpleSplit "plain text" emptyPage). reflexivity.
Defined.

